(** * conda_forge_tick.utils: a shallow embedding and its properties

    The module [conda_forge_tick/utils.py] is embedded class by class and
    function by function.  Part I holds the definitions, one Rocq module
    per Python class or group of functions, under the names of the source.
    Part II holds the lemmas and the theorems.

    Conventions of the embedding.
    - A Python call that may raise returns a [result]: [Return v] or
      [Raise e], with [e] the exception class.
    - Code that touches the file system threads a state through a small
      state-and-exception monad ([Eff]); the state survives a raise, as
      the side effects of a Python call survive its exception.
    - Python [str] is [string]; [dict] with text keys is [gmap string _];
      [set] is [gset _]; [None] in a position that admits it is either a
      constructor of its own or [option]. *)

From Stdlib Require Import ZArith Ascii String.
From stdpp Require Import base option list gmap strings fin_maps sets sorting.

Open Scope string_scope.
Open Scope list_scope.

#[global] Set Warnings "-clear-no-such-hyp".

(** * Part I: definitions *)

(** ** Exceptions and results *)

Inductive exn :=
| StopIteration
| TypeError
| KeyError
| IndexError
| ValueError
| NotImplementedError
| FileNotFoundError
| FileExistsError
| IsADirectoryError
| NotADirectoryError
| JSONDecodeError
| RecursionError.

Inductive result (A : Type) :=
| Return (a : A)
| Raise (e : exn).

Arguments Return {A} a.
Arguments Raise {A} e.

#[global] Instance exn_eq_dec : EqDecision exn.
Proof. solve_decision. Defined.

(** ** The state-and-exception monad *)

(** A computation over a state [S]: it ends in a value or an exception,
    and in a state either way. *)
Definition Eff (S A : Type) : Type := S → result A * S.

Definition ret {S A} (a : A) : Eff S A := λ σ, (Return a, σ).

Definition raise {S A} (e : exn) : Eff S A := λ σ, (Raise e, σ).

Definition bind {S A B} (m : Eff S A) (k : A → Eff S B) : Eff S B :=
  λ σ, match m σ with
       | (Return a, σ') => k a σ'
       | (Raise e, σ') => (Raise e, σ')
       end.

(** [try: m except: h] *)
Definition catch {S A} (m : Eff S A) (h : exn → Eff S A) : Eff S A :=
  λ σ, match m σ with
       | (Return a, σ') => (Return a, σ')
       | (Raise e, σ') => h e σ'
       end.

Definition get {S} : Eff S S := λ σ, (Return σ, σ).

Definition modify {S} (f : S → S) : Eff S unit := λ σ, (Return tt, f σ).

(** A pure, fallible step inside a computation. *)
Definition lift_result {S A} (r : result A) : Eff S A := λ σ, (r, σ).

(** A computation on the second component of a pair of states. *)
Definition on_snd {S1 S2 A} (m : Eff S2 A) : Eff (S1 * S2) A :=
  λ σ, let '(r, σ2) := m σ.2 in (r, (σ.1, σ2)).

Notation "x ⇐ m ;; k" := (bind m (λ x, k))
  (at level 100, m at next level, right associativity).
Notation "m ;; k" := (bind m (λ _, k))
  (at level 100, right associativity).

(** ** class UniversalSet(Set) *)

Module UniversalSet.

(** An instance of the class: it has no fields. *)
Inductive t : Set := Instance.

Section with_elements.
Context {E : Type} `{Countable E}.

(** The operands of [&] considered here: a built-in [set] of hashable
    elements, or an instance of the class. *)
Inductive operand :=
| BuiltinSet (s : gset E)
| Universal (u : t).

(** What a binary special method hands back to the interpreter. *)
Inductive binop_result :=
| Returned (v : operand)
| NotImplemented.

(** [def __and__(self, other): return other] *)
Definition __and__ (self : t) (other : operand) : binop_result :=
  Returned other.

(** [def __rand__(self, other): return other] *)
Definition __rand__ (self : t) (other : operand) : binop_result :=
  Returned other.

(** [def __contains__(self, item): return True] *)
Definition __contains__ (self : t) (item : E) : bool := true.

(** [def __iter__(self): return self] *)
Definition __iter__ (self : t) : t := self.

(** [def __next__(self): raise StopIteration]; an iterator that went on
    would return an element and the iterator to go on with. *)
Definition __next__ (self : t) : result (E * t) := Raise StopIteration.

(** [def __len__(self): return float("inf")]: the only number this
    module needs beside the integers is the float infinity. *)
Inductive number :=
| Int (z : Z)
| FloatInf.

Definition __len__ (self : t) : number := FloatInf.

(** [set.__and__] and [set.__rand__] of the built-in type: they answer
    only for another built-in set. *)
Definition set__and__ (s : gset E) (other : operand) : binop_result :=
  match other with
  | BuiltinSet t => Returned (BuiltinSet (s ∩ t))
  | Universal _ => NotImplemented
  end.

Definition set__rand__ (s : gset E) (other : operand) : binop_result :=
  match other with
  | BuiltinSet t => Returned (BuiltinSet (t ∩ s))
  | Universal _ => NotImplemented
  end.

(** The method that the type of [self] supplies. *)
Definition dispatch__and__ (self other : operand) : binop_result :=
  match self with
  | BuiltinSet s => set__and__ s other
  | Universal u => __and__ u other
  end.

Definition dispatch__rand__ (self other : operand) : binop_result :=
  match self with
  | BuiltinSet s => set__rand__ s other
  | Universal u => __rand__ u other
  end.

(** The expression [a & b]: the left operand's [__and__] is asked
    first, the right operand's [__rand__] when the left one declines. *)
Definition and_op (a b : operand) : result operand :=
  match dispatch__and__ a b with
  | Returned v => Return v
  | NotImplemented =>
      match dispatch__rand__ b a with
      | Returned v => Return v
      | NotImplemented => Raise TypeError
      end
  end.

(** The expression [item in s]. *)
Definition in_op (item : E) (s : operand) : bool :=
  match s with
  | BuiltinSet t => bool_decide (item ∈ t)
  | Universal u => __contains__ u item
  end.

(** Exhausting an iterator, as [list(it)] or a [for] loop does: call
    [next] until it raises [StopIteration].  [None] is "more than [fuel]
    elements"; another exception is passed on. *)
Fixpoint drain {I : Type} (next : I → result (E * I)) (fuel : nat) (it : I)
  : option (result (list E)) :=
  match fuel with
  | O => None
  | S fuel' =>
      match next it with
      | Raise StopIteration => Some (Return [])
      | Raise e => Some (Raise e)
      | Return (x, it') =>
          match drain next fuel' it' with
          | Some (Return xs) => Some (Return (x :: xs))
          | other => other
          end
      end
  end.

(** [list(u)] for an instance [u]: take the iterator, then exhaust it. *)
Definition list_of (fuel : nat) (u : t) : option (result (list E)) :=
  drain __next__ fuel (__iter__ u).

End with_elements.

Arguments operand E {_ _}.
Arguments binop_result E {_ _}.

End UniversalSet.

(** ** def executor(kind, max_workers) *)

Module Executor.

(** The resources the three branches acquire. *)
Inductive resource :=
| ThreadPoolExecutor (max_workers : Z)
| ProcessPoolExecutor (max_workers : Z)
| LocalCluster (n_workers : Z)
| Client (cluster : resource).

(** The completion iterators that are yielded beside the executor. *)
Inductive completion :=
| as_completed
| distributed_as_completed.

#[global] Instance resource_eq_dec : EqDecision resource.
Proof. solve_decision. Defined.

(** The state the generator runs in: the resources that are live, in
    the order of their acquisition. *)
Abbreviation live := (list resource).

(** The constructor of a resource: the pools of [concurrent.futures]
    refuse a number of workers that is not positive with [ValueError];
    the cluster and the client of [distributed], a library that is not
    part of this repository, are taken to start. *)
Definition construct (r : resource) : result resource :=
  match r with
  | ThreadPoolExecutor n | ProcessPoolExecutor n =>
      if (n <=? 0)%Z then Raise ValueError else Return r
  | LocalCluster _ | Client _ => Return r
  end.

(** Entering a [with] block over a resource, which is live once its
    constructor has returned, and leaving the block. *)
Definition acquire (r : resource) : Eff live resource :=
  λ l, match construct r with
       | Return r => (Return r, l ++ [r])
       | Raise e => (Raise e, l)
       end.

Definition release (r : resource) (l : live) : live :=
  filter (λ x, x ≠ r) l.

(** A generator suspended at its [yield]: the value it yielded and what
    it does when it is resumed, here the leaving of its [with] blocks,
    the inner one first. *)
Record suspended := {
  yielded : resource * completion;
  resume : live → live;
}.

(** [def executor(kind, max_workers)]: the body of the generator, run
    to its [yield] or to its [raise]. *)
Definition executor (kind : string) (max_workers : Z) : Eff live suspended :=
  if decide (kind = "thread") then
    pool ⇐ acquire (ThreadPoolExecutor max_workers) ;;
    ret {| yielded := (pool, as_completed); resume := release pool |}
  else if decide (kind = "process") then
    pool ⇐ acquire (ProcessPoolExecutor max_workers) ;;
    ret {| yielded := (pool, as_completed); resume := release pool |}
  else if decide (kind = "dask") then
    cluster ⇐ acquire (LocalCluster max_workers) ;;
    client ⇐ acquire (Client cluster) ;;
    ret {| yielded := (client, distributed_as_completed);
           resume := λ l, release cluster (release client l) |}
  else raise NotImplementedError.

(** The context manager that [contextlib.contextmanager] makes of the
    generator: [__enter__] runs it to its [yield] and hands the value
    to the [with] statement; [__exit__] resumes it. *)
Definition __enter__ (kind : string) (max_workers : Z)
  : Eff live (resource * completion) :=
  g ⇐ executor kind max_workers ;; ret (yielded g).

Definition __exit__ (g : suspended) : Eff live unit :=
  modify (resume g).

End Executor.

(** ** pin_sep_pat, _parse_requirements and get_requirements *)

Module Requirements.

(** The regular expressions this module compiles: alternations of
    one-character literals. *)
Inductive regex :=
| Lit (c : ascii)
| Alt (r1 r2 : regex).

(** [pin_sep_pat = re.compile(" |>|<|=|\[")] *)
Definition pin_sep_pat : regex :=
  Alt (Lit " ") (Alt (Lit ">") (Alt (Lit "<") (Alt (Lit "=") (Lit "[")))).

(** Whether the pattern matches at a position whose next character is
    [c]; the alternatives are tried from the left, and each match is one
    character long. *)
Fixpoint matches (r : regex) (c : ascii) : bool :=
  match r with
  | Lit d => Ascii.eqb d c
  | Alt r1 r2 => matches r1 c || matches r2 c
  end.

(** [pattern.split(s)]: the pieces of [s] between the matches, from the
    left; a match at either end or two adjacent matches give an empty
    piece.  The list is never empty. *)
Fixpoint re_split (r : regex) (s : string) : list string :=
  match s with
  | EmptyString => [EmptyString]
  | String c rest =>
      if matches r c then EmptyString :: re_split r rest
      else
        match re_split r rest with
        | piece :: pieces => String c piece :: pieces
        | [] => [String c EmptyString]
        end
  end.

(** ASCII text: no character above code 127. *)
Definition is_ascii (s : string) : bool :=
  forallb (λ c, (nat_of_ascii c <? 128)%nat) (list_ascii_of_string s).

(** What [str.lower()] does on ASCII text: the letters A to Z go to a
    to z, every other character is kept. *)
Definition lower_ascii (c : ascii) : ascii :=
  let n := nat_of_ascii c in
  if (65 <=? n)%nat && (n <=? 90)%nat then ascii_of_nat (n + 32) else c.

Fixpoint lower (s : string) : string :=
  match s with
  | EmptyString => EmptyString
  | String c rest => String (lower_ascii c) (lower rest)
  end.

(** [str.lower()] of Python, which knows the cases of all of Unicode
    and is not part of this repository.  All that is assumed of it is
    what it does on ASCII text. *)
Class StrLower := {
  str_lower : string → string;
  str_lower_ascii : ∀ s, is_ascii s = true → str_lower s = lower s;
}.

(** [xs[0]] of a list of strings; [re_split] never returns the empty
    list (lemma [re_split_nonempty]), so the default is never taken. *)
Definition item0 (xs : list string) : string :=
  match xs with
  | x :: _ => x
  | [] => EmptyString
  end.

(** An entry of a requirements list: text, or YAML null. *)
Definition entry := option string.

(** A requirements section as the YAML parser hands it over: null, a
    flat list, or a mapping whose values are lists or null. *)
Inductive section :=
| Null
| Flat (l : list entry)
| Mapping (m : gmap string (option (list entry))).

(** Python truth value of a section: [None], [[]] and [{}] are false. *)
Definition truthy (req : section) : bool :=
  match req with
  | Null => false
  | Flat l => match l with [] => false | _ => true end
  | Mapping m => negb (bool_decide (m = ∅))
  end.

(** [req.get(key, []) or []] *)
Definition get_or_empty (m : gmap string (option (list entry))) (key : string)
  : list entry :=
  match m !! key with
  | Some (Some l) => l
  | Some None => []
  | None => []
  end.

(** The local variable [reqlist] of [_parse_requirements], as the two
    branches of its [isinstance] test compute it. *)
Definition reqlist (req : section) (build host run : bool) : list entry :=
  match req with
  | Flat l => if host || run then l else []
  | Mapping m =>
      let build := if build then get_or_empty m "build" else [] in
      let host := if host then get_or_empty m "host" else [] in
      let run := if run then get_or_empty m "run" else [] in
      build ++ host ++ run
  | Null => []
  end.

Section with_lower.
Context `{StrLower}.

(** [def _parse_requirements(req, build=True, host=True, run=True)] *)
Definition _parse_requirements (req : section) (build host run : bool)
  : gset string :=
  if negb (truthy req) then ∅
  else
    list_to_set
      (omap (λ x : entry,
               match x with
               | Some x => Some (str_lower (item0 (re_split pin_sep_pat x)))
               | None => None
               end) (reqlist req build host run)).

(** One element of [outputs]: a mapping whose ["requirements"] key may
    be absent ([None]) or hold a section (which may be null). *)
Record output := {
  output_requirements : option section;
}.

(** The recipe document, as far as these functions read it: the keys
    ["requirements"] and ["outputs"], each absent ([None]) or present;
    a present ["outputs"] is null ([Some None]) or a list. *)
Record meta_yaml := {
  requirements : option section;
  outputs : option (option (list output));
}.

(** [d.get("requirements", {})] *)
Definition get_requirements_key (r : option section) : section :=
  match r with
  | Some s => s
  | None => Mapping ∅
  end.

(** [x or {}] *)
Definition or_empty_mapping (s : section) : section :=
  if truthy s then s else Mapping ∅.

(** [def get_requirements(meta_yaml, outputs=True, build=True, host=True,
    run=True)] *)
Definition get_requirements (meta : meta_yaml) (outputs_flag build host run : bool)
  : gset string :=
  let reqs := _parse_requirements (get_requirements_key (requirements meta))
                build host run in
  let outs :=
    if outputs_flag then
      match outputs meta with
      | Some (Some l) => l
      | Some None => []
      | None => []
      end
    else [] in
  foldl (λ reqs out,
           reqs ∪ _parse_requirements
                    (or_empty_mapping
                       (get_requirements_key (output_requirements out)))
                    build host run)
        reqs outs.

(** The normalization rule in the words of the specification: the text
    before the first space, [>], [<], [=] or [[], in lower case. *)
Definition spec_is_separator (c : ascii) : bool :=
  bool_decide (c ∈ [" "; ">"; "<"; "="; "["]%char).

Fixpoint spec_before_first_separator (s : string) : string :=
  match s with
  | EmptyString => EmptyString
  | String c rest =>
      if spec_is_separator c then EmptyString
      else String c (spec_before_first_separator rest)
  end.

(** Lower case on ASCII text, letter by letter. *)
Definition spec_lower_char (c : ascii) : ascii :=
  match c with
  | "A" => "a" | "B" => "b" | "C" => "c" | "D" => "d" | "E" => "e"
  | "F" => "f" | "G" => "g" | "H" => "h" | "I" => "i" | "J" => "j"
  | "K" => "k" | "L" => "l" | "M" => "m" | "N" => "n" | "O" => "o"
  | "P" => "p" | "Q" => "q" | "R" => "r" | "S" => "s" | "T" => "t"
  | "U" => "u" | "V" => "v" | "W" => "w" | "X" => "x" | "Y" => "y"
  | "Z" => "z"
  | c => c
  end%char.

Fixpoint spec_lower (s : string) : string :=
  match s with
  | EmptyString => EmptyString
  | String c rest => String (spec_lower_char c) (spec_lower rest)
  end.

(** The bare name of an entry: lower-cased by Python. *)
Definition spec_bare_name (x : string) : string :=
  str_lower (spec_before_first_separator x).

(** Dropping the null entries of a list. *)
Definition spec_drop_null (l : list entry) : list string := omap id l.

(** The set of bare names of a list of entries. *)
Definition spec_names (l : list entry) : gset string :=
  list_to_set (spec_bare_name <$> spec_drop_null l).

(** A sub-list of a mapping: empty when absent or null. *)
Definition spec_list (m : gmap string (option (list entry))) (key : string)
  : list entry :=
  match m !! key with
  | Some (Some l) => l
  | _ => []
  end.

(** The entries of a section with every flag enabled: the three
    sub-lists of a mapping, absent or null ones empty, or the flat list. *)
Definition spec_entries (req : section) : list entry :=
  match req with
  | Null => []
  | Flat l => l
  | Mapping m => spec_list m "build" ++ spec_list m "host" ++ spec_list m "run"
  end.

(** The entries of a section that may be absent. *)
Definition spec_section (req : option section) : list entry :=
  match req with
  | Some s => spec_entries s
  | None => []
  end.

(** Documents whose entries are ASCII text. *)
Definition entry_ascii (x : entry) : Prop :=
  match x with
  | Some x => is_ascii x = true
  | None => True
  end.

Definition section_ascii (req : section) : Prop :=
  match req with
  | Null => True
  | Flat l => Forall entry_ascii l
  | Mapping m =>
      map_Forall (λ _ l, match l with
                         | Some l => Forall entry_ascii l
                         | None => True
                         end) m
  end.

Definition meta_ascii (meta : meta_yaml) : Prop :=
  (∀ s, requirements meta = Some s → section_ascii s)
  ∧ ∀ l, outputs meta = Some (Some l) →
         Forall (λ out, ∀ s, output_requirements out = Some s → section_ascii s) l.

(** The list that [outputs] holds: empty when absent or null. *)
Definition outputs_list (meta : meta_yaml) : list output :=
  match outputs meta with
  | Some (Some l) => l
  | _ => []
  end.

(** The example of the specification. *)
Definition example_meta : meta_yaml :=
  {| requirements :=
       Some (Mapping {[ "build" := Some [Some "numpy >=1.0"];
                        "host" := Some [Some "python"];
                        "run" := Some [Some "numpy"; Some "scipy[test]"] ]});
     outputs := None |}.

(** A section with upper-case letters and a null entry. *)
Definition example_mixed_case : meta_yaml :=
  {| requirements := Some (Flat [Some "NumPy >=1.0"; None; Some "SciPy"]);
     outputs := None |}.

End with_lower.

(** The lower-casing of ASCII text alone, to run the definitions on. *)
Definition ascii_lower : StrLower :=
  {| str_lower := lower; str_lower_ascii := λ _ _, eq_refl |}.

End Requirements.

(** ** def pluck(G, node_id), over networkx.DiGraph *)

Module Graph.

Section with_nodes.
Context {N : Type} `{Countable N}.
(** The attribute dictionaries that nodes and edges carry; [A] is their
    type and [no_attrs] the empty dictionary of a new node or edge. *)
Context {A : Type} (no_attrs : A).

(** A directed graph of networkx: [G._node] maps a node to its
    attributes; [G._succ] and its mirror [G._pred] are kept as one map
    from the edge [(u, v)] to its attributes. *)
Record DiGraph := {
  _node : gmap N A;
  _adj : gmap (N * N) A;
}.

(** [G.nodes] and [G.edges], as sets. *)
Definition nodes (G : DiGraph) : gset N := dom (_node G).
Definition edges (G : DiGraph) : gset (N * N) := dom (_adj G).

(** [G.in_edges(n)]: the pairs [(u, n)] for [u] in [G._pred[n]]. *)
Definition in_edges (G : DiGraph) (n : N) : list (N * N) :=
  filter (λ e, e.2 = n) (elements (edges G)).

(** [G.out_edges(n)]: the pairs [(n, v)] for [v] in [G._succ[n]]. *)
Definition out_edges (G : DiGraph) (n : N) : list (N * N) :=
  filter (λ e, e.1 = n) (elements (edges G)).

(** [G.remove_node(n)]: the node and every edge at it go; networkx
    raises its own error, a subclass of [Exception], for an absent
    node; [KeyError] is its cause and stands for it here. *)
Definition remove_node (G : DiGraph) (n : N) : result DiGraph :=
  if bool_decide (n ∈ nodes G) then
    Return {| _node := delete n (_node G);
              _adj := filter (λ kv, kv.1.1 ≠ n ∧ kv.1.2 ≠ n) (_adj G) |}
  else Raise KeyError.

(** [G.add_node(n)] as [add_edge] does it: only when [n] is new. *)
Definition touch_node (G : gmap N A) (n : N) : gmap N A :=
  match G !! n with
  | Some _ => G
  | None => <[n := no_attrs]> G
  end.

(** [G.add_edge(u, v)] without attributes: new end points become
    nodes, an existing edge keeps its attributes. *)
Definition add_edge (G : DiGraph) (u v : N) : DiGraph :=
  {| _node := touch_node (touch_node (_node G) u) v;
     _adj := match _adj G !! (u, v) with
             | Some _ => _adj G
             | None => <[(u, v) := no_attrs]> (_adj G)
             end |}.

(** [G.add_edges_from(ebunch)] *)
Definition add_edges_from (G : DiGraph) (ebunch : list (N * N)) : DiGraph :=
  foldl (λ G e, add_edge G e.1 e.2) G ebunch.

(** [itertools.product(xs, ys)], as the list that [list(...)] makes of
    it: the first component varies slowest. *)
Definition product (xs ys : list N) : list (N * N) :=
  x ← xs; (λ y, (x, y)) <$> ys.

(** [def pluck(G, node_id)]; the graph is updated in place, so the
    embedding returns the graph that [G] names afterwards. *)
Definition pluck (G : DiGraph) (node_id : N) : result DiGraph :=
  if bool_decide (node_id ∈ nodes G) then
    let new_edges :=
      product
        (elements (list_to_set (fst <$> in_edges G node_id) ∖ {[node_id]} : gset N))
        (elements (list_to_set (snd <$> out_edges G node_id) ∖ {[node_id]} : gset N)) in
    match remove_node G node_id with
    | Return G' => Return (add_edges_from G' new_edges)
    | Raise e => Raise e
    end
  else Return G.

(** A walk along the edges of the graph, of any length. *)
Definition reachable (G : DiGraph) : relation N :=
  rtc (λ u v, (u, v) ∈ edges G).

(** The invariant of networkx graphs: both ends of an edge are nodes. *)
Definition wf (G : DiGraph) : Prop :=
  ∀ u v, (u, v) ∈ edges G → u ∈ nodes G ∧ v ∈ nodes G.

End with_nodes.

Arguments DiGraph N {_ _} A.

(** The graph of the specification's example: the nodes A, B and C, with
    the edges from A to B and from B to C, all with the attributes [a]. *)
Definition chain_graph {A : Type} (a : A) : DiGraph string A :=
  {| _node := {[ "A" := a; "B" := a; "C" := a ]};
     _adj := {[ ("A", "B") := a; ("B", "C") := a ]} |}.

End Graph.

(** ** Python objects, JSON documents and the json module *)

Module Json.

(** The Python objects that reach this module's JSON code: what
    [json.load] builds, and lazy stores, which are objects with the
    fields [file_name] and [data].  Dictionaries have text keys, as JSON
    objects have; a float is held as its bits. *)
#[warnings="-register-all"]
Inductive pyobj :=
| PNone
| PBool (b : bool)
| PInt (z : Z)
| PFloat (bits : Z)
| PStr (s : string)
| PList (l : list pyobj)
| PDict (d : gmap string pyobj)
| PLazyJson (file_name : string) (data : pyobj).

(** A JSON document, as the text of a file denotes it. *)
#[warnings="-register-all"]
Inductive json :=
| JNull
| JBool (b : bool)
| JInt (z : Z)
| JFloat (bits : Z)
| JStr (s : string)
| JArr (l : list json)
| JObj (m : gmap string json).

(** The keyword arguments of [json.dump] that this module sets. *)
Record dump_options := {
  indent : option nat;
  sort_keys : bool;
  separators : option (string * string);
}.

(** The defaults of [json.dump]. *)
Definition json_defaults : dump_options :=
  {| indent := None; sort_keys := false; separators := None |}.

(** The text layer of the json module, which is not part of this
    repository: how a document is written with given options, and how a
    text is read.  [parse_render] is all that is assumed of it: what was
    written is read back.  [text_empty] is a file just truncated;
    [torn o] is what [json.dump] had written of [o] when its encoder
    raised, of which nothing is assumed. *)
Class JsonText := {
  text : Type;
  text_empty : text;
  render : dump_options → json → text;
  torn : dump_options → pyobj → text;
  parse : text → option json;
  parse_render : ∀ opts j, parse (render opts j) = Some j;
}.

(** [xs] mapped by a function that may raise, from the left. *)
Definition mapM {A B} (f : A → result B) : list A → result (list B) :=
  fix go (xs : list A) : result (list B) :=
    match xs with
    | [] => Return []
    | x :: xs' =>
        match f x with
        | Return y =>
            match go xs' with
            | Return ys => Return (y :: ys)
            | Raise e => Raise e
            end
        | Raise e => Raise e
        end
    end.

(** The values of a dictionary mapped by a function that may raise. *)
Definition map_mapM {A B} (f : A → result B) (d : gmap string A)
  : result (gmap string B) :=
  map_fold (λ k v acc,
              match acc with
              | Return m =>
                  match f v with
                  | Return y => Return (<[k := y]> m)
                  | Raise e => Raise e
                  end
              | Raise e => Raise e
              end) (Return ∅) d.

(** The encoder of the json module over the built-in types; an object
    of any other type is left to [foreign]. *)
Definition encode_with (foreign : pyobj → result json) : pyobj → result json :=
  fix enc (o : pyobj) {struct o} : result json :=
    match o with
    | PNone => Return JNull
    | PBool b => Return (JBool b)
    | PInt z => Return (JInt z)
    | PFloat f => Return (JFloat f)
    | PStr s => Return (JStr s)
    | PList l =>
        match mapM enc l with
        | Return js => Return (JArr js)
        | Raise e => Raise e
        end
    | PDict d =>
        match map_mapM enc d with
        | Return m => Return (JObj m)
        | Raise e => Raise e
        end
    | PLazyJson _ _ => foreign o
    end.

(** The encoder of [json.dump(obj, default=hook)]: an object that is
    not of a built-in type is handed to [hook], whose answer is encoded
    in its place, and without a hook is a [TypeError].  [fuel] bounds
    the chain of hook answers that need the hook again. *)
Fixpoint encode (fuel : nat) (hook : option (pyobj → result pyobj))
    (o : pyobj) {struct fuel} : result json :=
  encode_with
    (λ o', match hook with
           | None => Raise TypeError
           | Some h =>
               match fuel with
               | O => Raise RecursionError
               | S fuel' =>
                   match h o' with
                   | Return r => encode fuel' hook r
                   | Raise e => Raise e
                   end
               end
           end) o.

(** The decoder of [json.load(fp)] without hooks. *)
Fixpoint decode (j : json) : pyobj :=
  match j with
  | JNull => PNone
  | JBool b => PBool b
  | JInt z => PInt z
  | JFloat f => PFloat f
  | JStr s => PStr s
  | JArr l => PList (decode <$> l)
  | JObj m => PDict (decode <$> m)
  end.

(** A measure for induction over documents. *)
Fixpoint json_size (j : json) : nat :=
  match j with
  | JArr l => S (foldr (λ x acc, json_size x + acc) 0 l)
  | JObj m => S (map_fold (λ _ x acc, json_size x + acc) 0 m)
  | _ => 1
  end.

Section with_text.
Context `{JsonText}.

(** [json.dumps(obj, **opts, default=hook)] *)
Definition json_dumps (fuel : nat) (opts : dump_options)
    (hook : option (pyobj → result pyobj)) (obj : pyobj) : result text :=
  match encode fuel hook obj with
  | Return j => Return (render opts j)
  | Raise e => Raise e
  end.

(** [json.loads(s)] without hooks; hooked decoding runs in the file
    system and is defined with the codec. *)
Definition json_loads (s : text) : result pyobj :=
  match parse s with
  | Some j => Return (decode j)
  | None => Raise JSONDecodeError
  end.

End with_text.

End Json.

(** ** The os module and the built-in open *)

Module Os.

(** [os.sep] *)
Definition sep : ascii := "/".

(** [p] cut after its last separator: the part up to and including the
    separator, and the rest; [None] when [p] has no separator. *)
Fixpoint cut_last_sep (p : string) : option (string * string) :=
  match p with
  | EmptyString => None
  | String c rest =>
      match cut_last_sep rest with
      | Some (h, t) => Some (String c h, t)
      | None =>
          if Ascii.eqb c sep then Some (String c EmptyString, rest) else None
      end
  end.

(** [s == sep * len(s)] *)
Fixpoint all_sep (s : string) : bool :=
  match s with
  | EmptyString => true
  | String c rest => Ascii.eqb c sep && all_sep rest
  end.

(** [s.rstrip(sep)] *)
Fixpoint rstrip_sep (s : string) : string :=
  match s with
  | EmptyString => EmptyString
  | String c rest =>
      match rstrip_sep rest with
      | EmptyString =>
          if Ascii.eqb c sep then EmptyString else String c EmptyString
      | rest' => String c rest'
      end
  end.

(** [os.path.split(p)] of posixpath *)
Definition split (p : string) : string * string :=
  let '(head, tail) :=
    match cut_last_sep p with
    | Some ht => ht
    | None => (EmptyString, p)
    end in
  if negb (bool_decide (head = "")) && negb (all_sep head)
  then (rstrip_sep head, tail)
  else (head, tail).

Section with_text.
Context {text : Type}.

(** The file system: the regular files with their contents and the
    directories, each under the spelling of its path; the root and the
    working directory (["."], and [""] as the parent of a relative
    name) exist without an entry. *)
Record fs := {
  files : gmap string text;
  dirs : gset string;
}.

Definition fs_empty : fs := {| files := ∅; dirs := ∅ |}.

(** [os.path.isdir(p)] and [os.path.isfile(p)] *)
Definition isdir (σ : fs) (p : string) : bool :=
  negb (bool_decide (p = ""))
  && (bool_decide (p ∈ dirs σ) || all_sep p || bool_decide (p = ".")).

Definition isfile (σ : fs) (p : string) : bool :=
  negb (bool_decide (p = "")) && negb (isdir σ p)
  && bool_decide (is_Some (files σ !! p)).

(** [os.path.exists(p)] *)
Definition path_exists (σ : fs) (p : string) : bool :=
  isdir σ p || isfile σ p.

(** Whether the directory that is to hold [p] is there: the head of
    [p], the working directory when the head is empty. *)
Definition parent_error (σ : fs) (p : string) : option exn :=
  let head := (split p).1 in
  if bool_decide (head = "") then None
  else if isdir σ head then None
  else if isfile σ head then Some NotADirectoryError
  else Some FileNotFoundError.

(** The invariant of a file system: each directory has a name as [split]
    cuts one, with a last component, and lies in a directory that is
    there. *)
Definition wf_fs (σ : fs) : Prop :=
  ∀ d, d ∈ dirs σ → (split d).2 ≠ "" ∧ parent_error σ d = None.

(** A directory that [os.makedirs] can provide: one that is there, or a
    name that is free, in the working directory or in a directory that
    can be provided. *)
Inductive creatable (σ : fs) : string → Prop :=
| creatable_dir d : isdir σ d = true → creatable σ d
| creatable_top d :
    path_exists σ d = false →
    (split d).2 ≠ "" → (split d).2 ≠ "." →
    (split d).1 = "" →
    creatable σ d
| creatable_child d :
    path_exists σ d = false →
    (split d).2 ≠ "" → (split d).2 ≠ "." →
    creatable σ (split d).1 →
    creatable σ d.

(** [os.mkdir(name)]; the names that reach it come out of [split] and
    end in no separator, the root apart. *)
Definition mkdir (name : string) : Eff fs unit :=
  σ ⇐ get ;;
  if bool_decide (name = "") then raise FileNotFoundError
  else if path_exists σ name then raise FileExistsError
  else
    match parent_error σ name with
    | Some e => raise e
    | None => modify (λ σ, {| files := files σ; dirs := {[name]} ∪ dirs σ |})
    end.

(** The exceptions of the model are subclasses of [OSError] when they
    come from the file system. *)
Definition is_OSError (e : exn) : bool :=
  match e with
  | FileNotFoundError | FileExistsError
  | IsADirectoryError | NotADirectoryError => true
  | _ => false
  end.

(** [os.makedirs(name, exist_ok=exist_ok)], after the library's source:
    the missing ancestors first, then [name] itself, whose failure is
    forgiven when [exist_ok] holds and [name] is a directory.  [fuel]
    bounds the depth of the recursion; the length of [name] is enough,
    as each head is shorter than the name it is split from. *)
Fixpoint makedirs_fuel (fuel : nat) (name : string) (exist_ok : bool)
  : Eff fs unit :=
  match fuel with
  | O => raise RecursionError
  | S fuel' =>
      let '(head, tail) := split name in
      let '(head, tail) :=
        if bool_decide (tail = "") then split head else (head, tail) in
      σ ⇐ get ;;
      early ⇐
        (if negb (bool_decide (head = "")) && negb (bool_decide (tail = ""))
            && negb (path_exists σ head)
         then
           catch (makedirs_fuel fuel' head exist_ok)
                 (λ e, if bool_decide (e = FileExistsError) then ret tt
                       else raise e) ;;
           ret (bool_decide (tail = "."))
         else ret false) ;;
      if (early : bool) then ret tt
      else
        catch (mkdir name)
              (λ e, if is_OSError e then
                      σ ⇐ get ;;
                      if negb exist_ok || negb (isdir σ name) then raise e
                      else ret tt
                    else raise e)
  end.

Definition makedirs (name : string) (exist_ok : bool) : Eff fs unit :=
  makedirs_fuel (S (String.length name)) name exist_ok.

(** A path that names a file has a last component: it does not end in
    a separator, and is not empty. *)
Definition names_file (p : string) : Prop := (split p).2 ≠ "".

(** [open(p, "w")]: the file is created or truncated to [empty]; a path
    that is a directory, or ends in a separator, is refused. *)
Definition open_w (empty : text) (p : string) : Eff fs unit :=
  σ ⇐ get ;;
  if bool_decide (p = "") then raise FileNotFoundError
  else if isdir σ p || bool_decide ((split p).2 = "") then raise IsADirectoryError
  else
    match parent_error σ p with
    | Some e => raise e
    | None => modify (λ σ, {| files := <[p := empty]> (files σ); dirs := dirs σ |})
    end.

(** [f.write(t)] on a file just opened for writing at [p]. *)
Definition write (p : string) (t : text) : Eff fs unit :=
  modify (λ σ, {| files := <[p := t]> (files σ); dirs := dirs σ |}).

(** [open(p, "r")] and the reading of the whole file; where there is
    no file, the directory that should hold it is looked at as
    [open(p, "w")] does.  The files of the model hold text: bytes that
    do not decode, for which the reading raises, are outside it. *)
Definition open_r (p : string) : Eff fs text :=
  σ ⇐ get ;;
  if isdir σ p then raise IsADirectoryError
  else
    match files σ !! p with
    | Some t => if bool_decide (p = "") then raise FileNotFoundError else ret t
    | None =>
        match parent_error σ p with
        | Some e => raise e
        | None => raise FileNotFoundError
        end
    end.

(** The names between the separators of a path. *)
Fixpoint components (p : string) : list string :=
  match p with
  | EmptyString => [EmptyString]
  | String c rest =>
      if Ascii.eqb c sep then EmptyString :: components rest
      else
        match components rest with
        | name :: names => String c name :: names
        | [] => [String c EmptyString]
        end
  end.

(** A name of a file or directory: not empty, and neither ["."] nor
    [".."]. *)
Definition is_name (c : string) : bool :=
  negb (bool_decide (c = "")) && negb (bool_decide (c = "."))
  && negb (bool_decide (c = "..")).

(** A path in its one plain spelling: from the root ([absolute]) or
    from the working directory, through names only, with single
    separators and none at the end. *)
Definition plain (absolute : bool) (p : string) : bool :=
  match components p with
  | first :: rest =>
      (if absolute
       then bool_decide (first = "") && negb (bool_decide (rest = []))
       else is_name first)
      && forallb is_name rest
  | [] => false
  end.

(** A file system whose files and directories are all in their plain
    spelling, all from the root or all from the working directory.
    There, and for a path spelled so, the spelling identifies what the
    path names, as the model takes it to: no other spelling, through
    ["."], [".."] or a doubled separator, reaches the same file.
    Symbolic links are not modelled. *)
Definition plain_fs (absolute : bool) (σ : fs) : Prop :=
  map_Forall (λ q _, plain absolute q = true) (files σ)
  ∧ set_Forall (λ q, plain absolute q = true) (dirs σ).

End with_text.

Arguments fs text : clear implicits.

End Os.

(** ** class LazyJson(MutableMapping) *)

Module LazyJson.
Import Json Os.

(** The fields of a store: [self.file_name] and [self.data], the latter
    [None] until the file is loaded. *)
Record t := {
  file_name : string;
  data : pyobj;
}.

(** The store as a Python object among others. *)
Definition as_pyobj (self : t) : pyobj := PLazyJson (file_name self) (data self).

(** [len(o)] of a built-in object. *)
Definition py_len (o : pyobj) : result Z :=
  match o with
  | PDict d => Return (Z.of_nat (size d))
  | PList l => Return (Z.of_nat (length l))
  | PStr s => Return (Z.of_nat (String.length s))
  | _ => Raise TypeError
  end.

(** [o[key]] for a text key. *)
Definition py_getitem (o : pyobj) (key : string) : result pyobj :=
  match o with
  | PDict d =>
      match d !! key with
      | Some v => Return v
      | None => Raise KeyError
      end
  | _ => Raise TypeError
  end.

(** [o[key] = value] for a text key; the object that [o] names after
    the assignment is returned. *)
Definition py_setitem (o : pyobj) (key : string) (value : pyobj) : result pyobj :=
  match o with
  | PDict d => Return (PDict (<[key := value]> d))
  | _ => Raise TypeError
  end.

(** [del o[key]] for a text key. *)
Definition py_delitem (o : pyobj) (key : string) : result pyobj :=
  match o with
  | PDict d =>
      match d !! key with
      | Some _ => Return (PDict (delete key d))
      | None => Raise KeyError
      end
  | _ => Raise TypeError
  end.

(** [list(o)] of a built-in object: the keys of a dictionary, the items
    of a list, the characters of a text.  The keys come in the order of
    the dictionaries of the model, which is not the order of insertion
    that Python keeps. *)
Definition py_iter (o : pyobj) : result (list pyobj) :=
  match o with
  | PDict d => Return (PStr <$> (map_to_list d).*1)
  | PList l => Return l
  | PStr s => Return ((λ c, PStr (String c EmptyString)) <$> list_ascii_of_string s)
  | _ => Raise TypeError
  end.

Section with_text.
Context `{JsonText}.

(** [with open(p, "w") as f: json.dump(obj, f, **opts)]: the encoder
    streams its chunks into the file, so a raise leaves a torn file. *)
Definition json_dump_to (p : string) (opts : dump_options) (obj : pyobj)
  : Eff (fs text) unit :=
  open_w text_empty p ;;
  match encode 0 None obj with
  | Return j => write p (render opts j)
  | Raise e => write p (torn opts obj) ;; raise e
  end.

(** [def __init__(self, file_name)] *)
Definition __init__ (file_name : string) : Eff (fs text) t :=
  σ ⇐ get ;;
  (if negb (path_exists σ file_name) then
     makedirs (split file_name).1 true ;;
     json_dump_to file_name json_defaults (PDict ∅)
   else ret tt) ;;
  ret {| file_name := file_name; data := PNone |}.

(** The methods run in the state of the object and of the file system. *)
Definition method (A : Type) : Type := Eff (t * fs text) A.

Definition self : method t := σ ⇐ get ;; ret σ.1.

Definition set_data (v : pyobj) : method unit :=
  modify (λ σ, ({| file_name := file_name σ.1; data := v |}, σ.2)).

(** [def _load(self)]; the handler prints the working directory and
    its listing, which the model does not keep, and raises again. *)
Definition _load : method unit :=
  s ⇐ self ;;
  match data s with
  | PNone =>
      catch
        (content ⇐ on_snd (open_r (file_name s)) ;;
         v ⇐ lift_result (json_loads content) ;;
         set_data v)
        (λ e, raise e)
  | _ => ret tt
  end.

(** The keyword arguments of [_dump]: [indent=4]. *)
Definition store_options : dump_options :=
  {| indent := Some 4%nat; sort_keys := false; separators := None |}.

(** [def _dump(self)] *)
Definition _dump : method unit :=
  _load ;;
  s ⇐ self ;;
  on_snd (json_dump_to (file_name s) store_options (data s)).

(** [def __len__(self)] *)
Definition __len__ : method Z :=
  _load ;;
  s ⇐ self ;;
  lift_result (py_len (data s)).

(** [def __getitem__(self, item)] *)
Definition __getitem__ (item : string) : method pyobj :=
  _load ;;
  s ⇐ self ;;
  lift_result (py_getitem (data s) item).

(** [def __setitem__(self, key, value)] *)
Definition __setitem__ (key : string) (value : pyobj) : method unit :=
  _load ;;
  s ⇐ self ;;
  d ⇐ lift_result (py_setitem (data s) key value) ;;
  set_data d ;;
  _dump.

(** [def __delitem__(self, v)] *)
Definition __delitem__ (v : string) : method unit :=
  _load ;;
  s ⇐ self ;;
  d ⇐ lift_result (py_delitem (data s) v) ;;
  set_data d ;;
  _dump.

(** [def __iter__(self)], a generator: at its first [next] it loads the
    store, then it yields what [self.data] yields; the embedding returns
    the list of all it yields. *)
Definition __iter__ : method (list pyobj) :=
  _load ;;
  s ⇐ self ;;
  lift_result (py_iter (data s)).

(** The file system after a store has written the document [j] to the
    file at [p]. *)
Definition written (σ : fs text) (p : string) (j : json) : fs text :=
  {| files := <[p := render store_options j]> (files σ); dirs := dirs σ |}.

(** [def __getstate__(self)] *)
Definition __getstate__ (s : t) : t :=
  {| file_name := file_name s; data := PNone |}.

(** [bool(self)]: the class defines [__len__] and no [__bool__], so the
    truth value of a store is that its length is not 0. *)
Definition truth_value : method bool :=
  n ⇐ __len__ ;;
  ret (negb (n =? 0)%Z).

(** The data model's lazy store over the file system [σ]: its file is
    there, in a directory that is there, and holds a JSON object; its
    cache is either not loaded or a JSON-compatible mapping, that is
    one that [json.load] can build. *)
Definition is_store (s : t) (σ : fs text) : Prop :=
  names_file (file_name s) ∧
  isdir σ (file_name s) = false ∧
  parent_error σ (file_name s) = None ∧
  (∃ m0, (files σ !! file_name s) ≫= parse = Some (JObj m0)) ∧
  (data s = PNone ∨ ∃ m, data s = decode (JObj m)).

(** The mapping [m] that a store presents to its user: its cache when
    that is loaded, what its file holds otherwise. *)
Definition presents (s : t) (σ : fs text) (m : gmap string json) : Prop :=
  data s = decode (JObj m) ∨
  (data s = PNone ∧ (files σ !! file_name s) ≫= parse = Some (JObj m)).

(** A store whose cache, when loaded, is what its file holds. *)
Definition in_sync (s : t) (σ : fs text) : Prop :=
  is_store s σ ∧
  (data s = PNone ∨
   ∃ m, (files σ !! file_name s) ≫= parse = Some (JObj m)
        ∧ data s = decode (JObj m)).

End with_text.

End LazyJson.

(** ** default, object_hook, dumps, dump, loads, load,
       frozen_to_json_friendly *)

Module Codec.
Import Json Os.

(** The depth to which the interpreter follows the encoder. *)
Definition recursion_limit : nat := 1000.

(** [def default(obj)] *)
Definition default (obj : pyobj) : result pyobj :=
  match obj with
  | PLazyJson file_name _ => Return (PDict {[ "__lazy_json__" := PStr file_name ]})
  | _ => Raise TypeError
  end.

(** The document that stands for a store bound to the path [p]:
    [{"__lazy_json__": p}]. *)
Definition lazy_json_doc (p : string) : json :=
  JObj {[ "__lazy_json__" := JStr p ]}.

(** The document that [dumps] writes for an object: a store at any depth
    is replaced by the document that stands for it. *)
Fixpoint to_doc (o : pyobj) : json :=
  match o with
  | PNone => JNull
  | PBool b => JBool b
  | PInt z => JInt z
  | PFloat f => JFloat f
  | PStr s => JStr s
  | PList l => JArr (to_doc <$> l)
  | PDict d => JObj (to_doc <$> d)
  | PLazyJson file_name _ => lazy_json_doc file_name
  end.

(** The object that [loads] builds from the document of [o]: a store is
    constructed anew over its path, with nothing loaded. *)
Fixpoint reloaded (o : pyobj) : pyobj :=
  match o with
  | PList l => PList (reloaded <$> l)
  | PDict d => PDict (reloaded <$> d)
  | PLazyJson file_name _ => PLazyJson file_name PNone
  | _ => o
  end.

(** A measure for induction over objects. *)
Fixpoint pyobj_size (o : pyobj) : nat :=
  match o with
  | PList l => S (foldr (λ x acc, pyobj_size x + acc) 0 l)
  | PDict d => S (map_fold (λ _ x acc, pyobj_size x + acc) 0 d)
  | PLazyJson _ d => S (pyobj_size d)
  | _ => 1
  end.

(** A document in which no object, at any depth, has the key
    ["__lazy_json__"]. *)
#[warnings="-register-all"]
Inductive untagged : json → Prop :=
| untagged_null : untagged JNull
| untagged_bool b : untagged (JBool b)
| untagged_int z : untagged (JInt z)
| untagged_float f : untagged (JFloat f)
| untagged_str s : untagged (JStr s)
| untagged_arr l : Forall untagged l → untagged (JArr l)
| untagged_obj m :
    m !! "__lazy_json__" = None →
    map_Forall (λ _, untagged) m →
    untagged (JObj m).

(** The order of Python on text: by code point, from the left. *)
Definition str_le (a b : string) : Prop := String.leb a b = true.

#[global] Instance str_le_dec : RelDecision str_le.
Proof. intros a b. unfold str_le. apply _. Defined.

(** [sorted(xs)] of a list of text. *)
Definition sorted (xs : list string) : list string := merge_sort str_le xs.

(** The record of [frozen_to_json_friendly] before a reference is
    attached: [{'keys': sorted(list(fz.keys())), 'data': dict(fz)}]. *)
Definition plain_record (fz : gmap string pyobj) : gmap string pyobj :=
  <["data" := PDict fz]>
    {[ "keys" := PList (PStr <$> sorted ((map_to_list fz).*1)) ]}.

Section with_text.
Context `{JsonText}.

(** A list mapped by a computation, from the left. *)
Definition mapM_eff {S A B} (f : A → Eff S B) : list A → Eff S (list B) :=
  fix go (xs : list A) : Eff S (list B) :=
    match xs with
    | [] => ret []
    | x :: xs' => y ⇐ f x ;; ys ⇐ go xs' ;; ret (y :: ys)
    end.

(** The values of a dictionary mapped by a computation, in the order
    in which the dictionary is folded. *)
Definition map_mapM_eff {S A B} (f : A → Eff S B) (m : gmap string A)
  : Eff S (gmap string B) :=
  map_fold (λ k v acc, d ⇐ acc ;; y ⇐ f v ;; ret (<[k := y]> d)) (ret ∅) m.

(** The decoder of [json.loads(s, object_hook=hook)]: every JSON
    object, the inner ones first, is replaced by the hook's answer to
    the dictionary decoded from it. *)
Fixpoint decode_with (hook : gmap string pyobj → Eff (fs text) pyobj)
    (j : json) : Eff (fs text) pyobj :=
  match j with
  | JNull => ret PNone
  | JBool b => ret (PBool b)
  | JInt z => ret (PInt z)
  | JFloat f => ret (PFloat f)
  | JStr s => ret (PStr s)
  | JArr l => l' ⇐ mapM_eff (decode_with hook) l ;; ret (PList l')
  | JObj m => d ⇐ map_mapM_eff (decode_with hook) m ;; hook d
  end.

(** [def object_hook(dct)]; with a file name that is not text the
    constructor is refused by the os functions with [TypeError].  An
    integer that is an open file descriptor, which those functions
    accept in place of a path, is outside the model: it has no
    descriptors, and a store has a text for its path. *)
Definition object_hook (dct : gmap string pyobj) : Eff (fs text) pyobj :=
  match dct !! "__lazy_json__" with
  | Some (PStr file_name) =>
      s ⇐ LazyJson.__init__ file_name ;; ret (LazyJson.as_pyobj s)
  | Some _ => raise TypeError
  | None => ret (PDict dct)
  end.

(** The options that [dumps] and [dump] set by default. *)
Definition codec_options : dump_options :=
  {| indent := None; sort_keys := true; separators := Some (",", ":") |}.

(** [def dumps(obj, sort_keys=True, separators=(",", ":"),
    default=default, **kwargs)] *)
Definition dumps (obj : pyobj) : result text :=
  json_dumps recursion_limit codec_options (Some default) obj.

(** [def dump(obj, fp, ...)], with [fp] a file just opened for writing
    at the path [fp]. *)
Definition dump (obj : pyobj) (fp : string) : Eff (fs text) unit :=
  match encode recursion_limit (Some default) obj with
  | Return j => write fp (render codec_options j)
  | Raise e => write fp (torn codec_options obj) ;; raise e
  end.

(** [def loads(s, object_hook=object_hook, **kwargs)] *)
Definition loads (s : text) : Eff (fs text) pyobj :=
  match parse s with
  | Some j => decode_with object_hook j
  | None => raise JSONDecodeError
  end.

(** [def load(fp, object_hook=object_hook, **kwargs)], with [fp] a file
    open for reading at the path [fp]: [json.load] reads the whole
    file and decodes it as [loads] does. *)
Definition load (fp : string) : Eff (fs text) pyobj :=
  s ⇐ open_r fp ;; loads s.

(** The objects whose documents [loads] reads back in the file system
    [σ] without a change to it: no dictionary has the key
    ["__lazy_json__"], and the path of every store exists. *)
#[warnings="-register-all"]
Inductive restorable (σ : fs text) : pyobj → Prop :=
| restorable_none : restorable σ PNone
| restorable_bool b : restorable σ (PBool b)
| restorable_int z : restorable σ (PInt z)
| restorable_float f : restorable σ (PFloat f)
| restorable_str s : restorable σ (PStr s)
| restorable_list l : Forall (restorable σ) l → restorable σ (PList l)
| restorable_dict d :
    d !! "__lazy_json__" = None →
    map_Forall (λ _, restorable σ) d →
    restorable σ (PDict d)
| restorable_store file_name data :
    path_exists σ file_name = true →
    restorable σ (PLazyJson file_name data).

(** A method call on a store from code that holds the store: the
    value comes back with the store as the call left it. *)
Definition call {A} (s : LazyJson.t) (m : LazyJson.method A)
  : Eff (fs text) (A * LazyJson.t) :=
  λ σ, match m (s, σ) with
       | (Return a, (s', σ')) => (Return (a, s'), σ')
       | (Raise e, (_, σ')) => (Raise e, σ')
       end.

(** [def frozen_to_json_friendly(fz: dict, PR: LazyJson=None)]; the
    test [if PR] takes the truth value of the store, which loads it. *)
Definition frozen_to_json_friendly (fz : gmap string pyobj)
    (PR : option LazyJson.t) : Eff (fs text) pyobj :=
  let d := plain_record fz in
  match PR with
  | None => ret (PDict d)
  | Some pr =>
      r ⇐ call pr LazyJson.truth_value ;;
      if (r.1 : bool) then ret (PDict (<["PR" := LazyJson.as_pyobj r.2]> d))
      else ret (PDict d)
  end.

End with_text.

(** A text layer to run the definitions on: a text is the document it
    denotes, or no document at all. *)
Program Definition tree_text : JsonText := {|
  text := option json;
  text_empty := None;
  render := λ _ j, Some j;
  torn := λ _ _, None;
  parse := λ t, t;
|}.
Next Obligation. reflexivity. Qed.

(** A store and the file system it was constructed in, for running the
    methods: the store over ["/tmp/x.json"], constructed where nothing
    existed. *)
Definition example_store : LazyJson.t :=
  {| LazyJson.file_name := "/tmp/x.json"; LazyJson.data := PNone |}.

Definition example_fs : fs (@text tree_text) :=
  (LazyJson.__init__ "/tmp/x.json" fs_empty).2.

(** The example store with the item ["a": 1] in its cache. *)
Definition example_loaded_store : LazyJson.t :=
  {| LazyJson.file_name := "/tmp/x.json";
     LazyJson.data := decode (JObj {[ "a" := JInt 1 ]}) |}.

(** The file system after the example store has written that cache. *)
Definition example_synced_fs : fs (@text tree_text) :=
  @LazyJson.written tree_text example_fs "/tmp/x.json"
    (JObj {[ "a" := JInt 1 ]}).

(** A file system whose only file holds a JSON array. *)
Definition example_array_fs : fs (@text tree_text) :=
  {| files := {[ "/tmp/l.json" := Some (JArr []) ]}; dirs := {[ "/tmp" ]} |}.

End Codec.

(** * Part II: properties *)

(** ** The universal set *)

Section universal_set.
Import UniversalSet.
Context {E : Type} `{Countable E}.

Lemma and_op_universal_l u (S : operand E) : and_op (Universal u) S = Return S.
Proof. reflexivity. Qed.

(** The built-in set declines a universal right operand, so the
    reflected method of the universal set answers. *)
Lemma and_op_universal_r u (S : operand E) : and_op S (Universal u) = Return S.
Proof. destruct S as [s|[]]; [reflexivity|]. by destruct u. Qed.

(** C8: for every set [S], built-in or universal, [UniversalSet() & S]
    and [S & UniversalSet()] both evaluate to [S] itself. *)
Theorem universal_set_intersection_identity (u : UniversalSet.t) (S : operand E) :
  and_op (Universal u) S = Return S ∧ and_op S (Universal u) = Return S.
Proof. split; [apply and_op_universal_l | apply and_op_universal_r]. Qed.

Lemma drain_universal (fuel : nat) (u : UniversalSet.t) :
  drain (E := E) __next__ (Datatypes.S fuel) u = Some (Return []).
Proof. reflexivity. Qed.

(** C9: every candidate [x] is reported a member of the universal set,
    and iterating the universal set ends at once with no element, for
    any bound on the number of steps that allows one step. *)
Theorem universal_set_contains_all_yields_none
    (u : UniversalSet.t) (x : E) (fuel : nat) :
  in_op x (Universal u) = true
  ∧ __contains__ u x = true
  ∧ list_of (E := E) (Datatypes.S fuel) u = Some (Return []).
Proof. repeat split. Qed.

End universal_set.

(** ** The universal set as the seed of an intersection *)

Section universal_set_fold.
Import UniversalSet.
Context {E : Type} `{Countable E}.

(** X1: folding [&] over a sequence of built-in sets, from the left and
    starting from the universal set, never raises and yields the
    intersection of the sets: the universal set is the seed of
    [reduce(and_, sets, UniversalSet())]. *)
Theorem universal_set_seeds_intersection (u : UniversalSet.t)
    (s : gset E) (ss : list (gset E)) :
  foldl (λ acc S, match acc with
                  | Return a => and_op a (BuiltinSet S)
                  | Raise e => Raise e
                  end)
        (Return (Universal u)) (s :: ss)
  = Return (BuiltinSet (foldl (∩) s ss)).
Proof.
  cbn [foldl]. rewrite and_op_universal_l.
  revert s. induction ss as [|s' ss IH]; intros s; [done|].
  cbn [foldl]. apply IH.
Qed.

End universal_set_fold.

(** ** The executor *)

Section executor.
Import Executor.

Lemma enter_thread n l :
  (0 < n)%Z →
  __enter__ "thread" n l
  = (Return (ThreadPoolExecutor n, as_completed), l ++ [ThreadPoolExecutor n]).
Proof.
  intros Hn. unfold __enter__, executor, acquire, bind, ret. cbn [decide construct].
  by rewrite (proj2 (Z.leb_gt n 0) Hn).
Qed.

Lemma enter_process n l :
  (0 < n)%Z →
  __enter__ "process" n l
  = (Return (ProcessPoolExecutor n, as_completed), l ++ [ProcessPoolExecutor n]).
Proof.
  intros Hn. unfold __enter__, executor, acquire, bind, ret. simpl.
  by rewrite (proj2 (Z.leb_gt n 0) Hn).
Qed.

(** A pool with no worker is refused before anything is acquired. *)
Lemma executor_no_worker kind n l :
  kind = "thread" ∨ kind = "process" → (n ≤ 0)%Z →
  executor kind n l = (Raise ValueError, l).
Proof.
  intros Hkind Hn. unfold executor, acquire, bind.
  destruct Hkind as [-> | ->]; simpl; by rewrite (proj2 (Z.leb_le n 0) Hn).
Qed.

Lemma enter_dask n l :
  __enter__ "dask" n l
  = (Return (Client (LocalCluster n), distributed_as_completed),
     l ++ [LocalCluster n; Client (LocalCluster n)]).
Proof.
  unfold __enter__, executor, acquire, bind, ret. simpl.
  by rewrite <-app_assoc.
Qed.

(** Leaving the block releases what entering it acquired. *)
Lemma exit_dask n g l :
  executor "dask" n [] = (Return g, l) → __exit__ g l = (Return tt, []).
Proof.
  intros [= <- <-]. unfold __exit__, modify. cbn [resume]. f_equal.
  unfold release. rewrite filter_cons, decide_True by done.
  rewrite filter_cons, decide_False by (intros Hne; by apply Hne).
  rewrite (filter_cons _ (Client _)), decide_False
    by (intros Hne; by apply Hne).
  reflexivity.
Qed.

(** C7: for every kind other than ["thread"], ["process"] and ["dask"],
    the generator raises [NotImplementedError] before it acquires
    anything, so entering the context raises it and the live resources
    are what they were. *)
Theorem executor_unknown_kind_raises (kind : string) (max_workers : Z) (l : live) :
  kind ≠ "thread" → kind ≠ "process" → kind ≠ "dask" →
  executor kind max_workers l = (Raise NotImplementedError, l)
  ∧ __enter__ kind max_workers l = (Raise NotImplementedError, l).
Proof.
  intros Ht Hp Hd.
  assert (Hgen : executor kind max_workers l = (Raise NotImplementedError, l)).
  { unfold executor. repeat case_decide; done. }
  split; [exact Hgen|]. unfold __enter__, bind. by rewrite Hgen.
Qed.

Lemma executor_unknown_kind_raises_witness :
  executor "magic" 4 [] = (Raise NotImplementedError, [])
  ∧ __enter__ "magic" 4 [] = (Raise NotImplementedError, []).
Proof.
  apply (executor_unknown_kind_raises "magic" 4 []); discriminate.
Defined.

End executor.

(** ** Leaving the executor's block *)

Section executor_exit.
Import Executor.

Lemma release_app_fresh r (l : live) : r ∉ l → release r (l ++ [r]) = l.
Proof.
  intros Hr. unfold release. rewrite filter_app, filter_cons, decide_False
    by (intros Hne; by apply Hne).
  rewrite filter_nil, app_nil_r.
  induction l as [|x l IH]; [done|].
  rewrite filter_cons, decide_True by set_solver.
  f_equal. apply IH. set_solver.
Qed.

(** X2: for the kinds "thread" and "process": with a positive number of
    workers, and no pool like the one to be made live already, the
    generator runs to its [yield], the [with] statement receives the
    new pool with [as_completed], and leaving the block releases the
    pool, so that the live resources are again what they were; with a
    number of workers that is not positive the constructor of the pool
    raises [ValueError], which entering the context passes on, and
    nothing is acquired. *)
Theorem executor_releases_on_exit (kind : string) (max_workers : Z) (l : live) :
  kind ∈ ["thread"; "process"] →
  let pool := if decide (kind = "thread") then ThreadPoolExecutor max_workers
              else ProcessPoolExecutor max_workers in
  ((0 < max_workers)%Z → pool ∉ l →
   ∃ g,
     executor kind max_workers l = (Return g, l ++ [pool])
     ∧ yielded g = (pool, as_completed)
     ∧ __enter__ kind max_workers l = (Return (pool, as_completed), l ++ [pool])
     ∧ __exit__ g (l ++ [pool]) = (Return tt, l))
  ∧ ((max_workers ≤ 0)%Z →
     executor kind max_workers l = (Raise ValueError, l)
     ∧ __enter__ kind max_workers l = (Raise ValueError, l)).
Proof.
  intros Hkind pool.
  assert (Hk : kind = "thread" ∨ kind = "process").
  { rewrite !elem_of_cons, elem_of_nil in Hkind. tauto. }
  split.
  - intros Hn Hfresh.
    assert (Hgen : ∃ g, executor kind max_workers l = (Return g, l ++ [pool])
                        ∧ yielded g = (pool, as_completed)
                        ∧ resume g = release pool).
    { unfold executor, acquire, bind, ret. subst pool.
      destruct Hk as [-> | ->]; simpl; rewrite (proj2 (Z.leb_gt max_workers 0) Hn);
        by eexists. }
    destruct Hgen as (g & Hg & Hy & Hr). exists g.
    split; [done|]. split; [done|]. split.
    + unfold __enter__, bind, ret. by rewrite Hg, Hy.
    + unfold __exit__, modify. by rewrite Hr, release_app_fresh.
  - intros Hn. pose proof (executor_no_worker kind max_workers l Hk Hn) as Hg.
    split; [done|]. unfold __enter__, bind. by rewrite Hg.
Qed.

Lemma executor_releases_on_exit_witness :
  (∃ g,
     executor "thread" 4 [] = (Return g, [] ++ [ThreadPoolExecutor 4])
     ∧ yielded g = (ThreadPoolExecutor 4, as_completed)
     ∧ __enter__ "thread" 4 []
       = (Return (ThreadPoolExecutor 4, as_completed), [] ++ [ThreadPoolExecutor 4])
     ∧ __exit__ g ([] ++ [ThreadPoolExecutor 4]) = (Return tt, []))
  ∧ (executor "thread" 0 [] = (Raise ValueError, [])
     ∧ __enter__ "thread" 0 [] = (Raise ValueError, [])).
Proof.
  split.
  - apply (executor_releases_on_exit "thread" 4 []).
    + apply list_elem_of_here.
    + reflexivity.
    + intros Hin. by apply elem_of_nil in Hin.
  - apply (executor_releases_on_exit "thread" 0 []).
    + apply list_elem_of_here.
    + discriminate.
Defined.

End executor_exit.

(** ** Requirements *)

Section requirements.
Import Requirements.
Context `{StrLower}.

Lemma re_split_nonempty r s : re_split r s ≠ [].
Proof.
  induction s as [|c rest IH]; simpl; [discriminate|].
  destruct (matches r c); [discriminate|].
  destruct (re_split r rest); [contradiction | discriminate].
Qed.

(** The pattern matches exactly the separators that the specification
    lists. *)
Lemma matches_pin_sep_pat c : matches pin_sep_pat c = spec_is_separator c.
Proof.
  unfold spec_is_separator, pin_sep_pat. cbn [matches].
  destruct (Ascii.eqb_spec " " c) as [<-|H1]; [reflexivity|].
  destruct (Ascii.eqb_spec ">" c) as [<-|H2]; [reflexivity|].
  destruct (Ascii.eqb_spec "<" c) as [<-|H3]; [reflexivity|].
  destruct (Ascii.eqb_spec "=" c) as [<-|H4]; [reflexivity|].
  destruct (Ascii.eqb_spec "[" c) as [<-|H5]; [reflexivity|].
  simpl. symmetry. apply bool_decide_eq_false.
  rewrite !elem_of_cons, elem_of_nil.
  intros [?|[?|[?|[?|[?|[]]]]]]; congruence.
Qed.

(** The first piece of the split is the text before the first
    separator. *)
Lemma item0_re_split x :
  item0 (re_split pin_sep_pat x) = spec_before_first_separator x.
Proof.
  induction x as [|c rest IH]; [reflexivity|].
  cbn [re_split spec_before_first_separator].
  rewrite matches_pin_sep_pat.
  destruct (spec_is_separator c); [reflexivity|].
  pose proof (re_split_nonempty pin_sep_pat rest) as Hne.
  destruct (re_split pin_sep_pat rest) as [|piece pieces]; [contradiction|].
  simpl in *. by rewrite IH.
Qed.

Lemma omap_bare_names (l : list entry) :
  omap (λ x : entry,
          match x with
          | Some x => Some (str_lower (item0 (re_split pin_sep_pat x)))
          | None => None
          end) l
  = spec_bare_name <$> spec_drop_null l.
Proof.
  unfold spec_drop_null, spec_bare_name.
  induction l as [|[x|] l IH]; [reflexivity| |exact IH].
  cbn [omap list_omap fmap list_fmap id]. cbn [omap list_omap] in IH.
  by rewrite IH, item0_re_split.
Qed.

(** The code's reading of a sub-list is the specification's. *)
Lemma get_or_empty_spec m key : get_or_empty m key = spec_list m key.
Proof. unfold get_or_empty, spec_list. by destruct (m !! key) as [[l|]|]. Qed.

Lemma reqlist_all_flags req : reqlist req true true true = spec_entries req.
Proof. destruct req; cbn [reqlist spec_entries]; by rewrite ?get_or_empty_spec. Qed.

Lemma spec_entries_falsy req : truthy req = false → spec_entries req = [].
Proof.
  destruct req as [|[|x l]|m]; simpl; try done.
  intros Hm. apply negb_false_iff, bool_decide_eq_true in Hm. by subst m.
Qed.

(** [_parse_requirements] with every flag enabled, in the words of the
    specification. *)
Lemma parse_requirements_spec req :
  _parse_requirements req true true true = spec_names (spec_entries req).
Proof.
  unfold _parse_requirements, spec_names.
  destruct (truthy req) eqn:Ht; cbn [negb].
  - by rewrite omap_bare_names, reqlist_all_flags.
  - by rewrite spec_entries_falsy.
Qed.

Lemma or_empty_mapping_entries s :
  spec_entries (or_empty_mapping s) = spec_entries s.
Proof.
  unfold or_empty_mapping. destruct (truthy s) eqn:Ht; [reflexivity|].
  rewrite (spec_entries_falsy s) by done. reflexivity.
Qed.

(** An absent section is read as the empty mapping, which has no
    entries. *)
Lemma get_requirements_key_entries r :
  spec_entries (get_requirements_key r) = spec_section r.
Proof. by destruct r. Qed.

Lemma foldl_union_outputs (f : output → gset string) outs acc :
  foldl (λ reqs out, reqs ∪ f out) acc outs = acc ∪ ⋃ (f <$> outs).
Proof.
  revert acc. induction outs as [|o outs IH]; intros acc; simpl.
  - set_solver.
  - rewrite IH. set_solver.
Qed.

(** Python's lower-casing of ASCII text, letter by letter. *)
Lemma lower_ascii_spec c : lower_ascii c = spec_lower_char c.
Proof. destruct c as [[] [] [] [] [] [] [] []]; reflexivity. Qed.

Lemma lower_spec s : lower s = spec_lower s.
Proof.
  induction s as [|c rest IH]; [done|].
  cbn [lower spec_lower]. by rewrite lower_ascii_spec, IH.
Qed.

Lemma is_ascii_before_first_separator x :
  is_ascii x = true → is_ascii (spec_before_first_separator x) = true.
Proof.
  unfold is_ascii. induction x as [|c rest IH]; [done|].
  cbn [list_ascii_of_string forallb spec_before_first_separator].
  intros [Hc Hrest]%andb_true_iff.
  destruct (spec_is_separator c); [done|].
  cbn [list_ascii_of_string forallb]. by rewrite Hc, IH.
Qed.

(** The bare name of an ASCII entry, without reference to Python. *)
Lemma spec_bare_name_ascii x :
  is_ascii x = true →
  spec_bare_name x = spec_lower (spec_before_first_separator x).
Proof.
  intros Hx. unfold spec_bare_name.
  rewrite str_lower_ascii by (by apply is_ascii_before_first_separator).
  apply lower_spec.
Qed.

Lemma spec_names_ascii (l : list entry) :
  Forall entry_ascii l →
  spec_names l
  = list_to_set ((λ x, spec_lower (spec_before_first_separator x))
                   <$> spec_drop_null l).
Proof.
  intros Hl. unfold spec_names. f_equal.
  induction Hl as [|[x|] l Hx _ IH]; [done| |exact IH].
  unfold spec_drop_null in *. cbn [omap list_omap id fmap list_fmap].
  cbn [omap list_omap id fmap list_fmap] in IH.
  by rewrite IH, (spec_bare_name_ascii x Hx).
Qed.

(** C3: with all flags enabled, [get_requirements] returns the bare
    names (null entries dropped, text before the first separator,
    lower-cased by Python, as a set) of the entries of the top-level
    section, a flat list or the build, host and run lists of a mapping,
    absent or null ones empty, together with those of the sections of
    the outputs; without outputs that is the set of the top-level
    section alone.  On ASCII text the lower-casing sends the letters A
    to Z to a to z and keeps every other character.  The example yields
    numpy, python and scipy, and a list with upper-case letters and a
    null entry yields the lower-case names. *)
Theorem get_requirements_all_flags :
  (∀ meta,
     get_requirements meta true true true true
     = spec_names (spec_section (requirements meta))
       ∪ ⋃ ((λ out, spec_names (spec_section (output_requirements out)))
             <$> outputs_list meta))
  ∧ (∀ req,
       get_requirements {| requirements := Some req; outputs := None |}
         true true true true
       = spec_names (spec_entries req))
  ∧ (∀ x, is_ascii x = true →
          spec_bare_name x = spec_lower (spec_before_first_separator x))
  ∧ get_requirements example_meta true true true true
    = {[ "numpy"; "python"; "scipy" ]}
  ∧ get_requirements example_mixed_case true true true true
    = {[ "numpy"; "scipy" ]}.
Proof.
  assert (Hgen : ∀ meta,
     get_requirements meta true true true true
     = spec_names (spec_section (requirements meta))
       ∪ ⋃ ((λ out, spec_names (spec_section (output_requirements out)))
             <$> outputs_list meta)).
  { intros meta. unfold get_requirements.
    rewrite foldl_union_outputs, parse_requirements_spec.
    rewrite get_requirements_key_entries. f_equal.
    unfold outputs_list. f_equal. apply list_fmap_ext. intros _ out _.
    by rewrite parse_requirements_spec, or_empty_mapping_entries,
         get_requirements_key_entries. }
  assert (Hreq : ∀ req,
       get_requirements {| requirements := Some req; outputs := None |}
         true true true true
       = spec_names (spec_entries req)).
  { intros req. rewrite Hgen. simpl. set_solver. }
  split; [exact Hgen|]. split; [exact Hreq|].
  split; [exact spec_bare_name_ascii|]. split.
  - unfold example_meta. rewrite Hreq, spec_names_ascii.
    + apply set_eq. intros x. vm_compute. set_solver.
    + vm_compute. repeat constructor.
  - unfold example_mixed_case. rewrite Hreq, spec_names_ascii.
    + apply set_eq. intros x. vm_compute. set_solver.
    + vm_compute. repeat constructor.
Qed.

Lemma lower_empty_prefix c rest :
  spec_is_separator c = true → spec_bare_name (String c rest) = "".
Proof.
  intros Hc. unfold spec_bare_name. simpl. rewrite Hc.
  by rewrite str_lower_ascii.
Qed.

Lemma reqlist_truthy req build host run x :
  x ∈ reqlist req build host run → truthy req = true.
Proof.
  destruct req as [|l|m]; simpl.
  - by intros ?%elem_of_nil.
  - destruct l; [|done]. destruct (host || run); by intros ?%elem_of_nil.
  - intros Hx. apply negb_true_iff, bool_decide_eq_false. intros ->.
    unfold get_or_empty in Hx. rewrite !lookup_empty in Hx.
    destruct build, host, run; simpl in Hx; by apply elem_of_nil in Hx.
Qed.

Lemma parse_requirements_elem req build host run x :
  Some x ∈ reqlist req build host run →
  spec_bare_name x ∈ _parse_requirements req build host run.
Proof.
  intros Hx. unfold _parse_requirements.
  rewrite (reqlist_truthy _ _ _ _ _ Hx). cbn [negb].
  rewrite omap_bare_names, elem_of_list_to_set.
  apply list_elem_of_fmap. exists x. split; [done|].
  unfold spec_drop_null. apply list_elem_of_omap. by exists (Some x).
Qed.

Lemma get_requirements_grows meta outs build host run :
  _parse_requirements (get_requirements_key (requirements meta)) build host run
  ⊆ get_requirements meta outs build host run.
Proof.
  unfold get_requirements. rewrite foldl_union_outputs. set_solver.
Qed.

(** C10: an entry whose first character is a separator puts the empty
    string into the set that [_parse_requirements] returns, in
    whichever selected list it stands, and thus into the set that
    [get_requirements] returns for a document with that section. *)
Theorem separator_first_entry_yields_empty_name
    (c : ascii) (rest : string) req build host run :
  c ∈ [" "; ">"; "<"; "="; "["]%char →
  Some (String c rest) ∈ reqlist req build host run →
  "" ∈ _parse_requirements req build host run
  ∧ ∀ outs_flag outs,
      "" ∈ get_requirements {| requirements := Some req; outputs := outs |}
             outs_flag build host run.
Proof.
  intros Hc Hx.
  assert (Hin : "" ∈ _parse_requirements req build host run).
  { rewrite <-(lower_empty_prefix c rest).
    - by apply parse_requirements_elem.
    - by apply bool_decide_eq_true. }
  split; [exact Hin|]. intros outs_flag outs.
  by apply (get_requirements_grows
              {| requirements := Some req; outputs := outs |}).
Qed.

End requirements.

Section requirements_example.
Import Requirements.
#[local] Existing Instance ascii_lower.

Lemma separator_first_entry_yields_empty_name_witness :
  "" ∈ _parse_requirements (Flat [Some "[linux]"]) true true true
  ∧ ∀ outs_flag outs,
      "" ∈ get_requirements
             {| requirements := Some (Flat [Some "[linux]"]); outputs := outs |}
             outs_flag true true true.
Proof.
  apply (separator_first_entry_yields_empty_name "[" "linux]").
  - set_solver.
  - simpl. set_solver.
Defined.

End requirements_example.

(** ** The names and the flags of the requirements *)

Section requirements_names.
Import Requirements.
Context `{StrLower}.

Lemma before_first_separator_chars x :
  Forall (λ c, spec_is_separator c = false)
         (list_ascii_of_string (spec_before_first_separator x)).
Proof.
  induction x as [|c rest IH]; [constructor|].
  cbn [spec_before_first_separator].
  destruct (spec_is_separator c) eqn:Hc; [constructor|].
  cbn [list_ascii_of_string]. by constructor.
Qed.

(** Lower case keeps what is no separator apart from the separators,
    and leaves no letter from A to Z. *)
Lemma spec_lower_char_plain c :
  spec_is_separator c = false →
  (c ∉ [" "; ">"; "<"; "="; "["]%char) →
  (spec_lower_char c ∉ [" "; ">"; "<"; "="; "["]%char)
  ∧ ¬ ((65 ≤ nat_of_ascii (spec_lower_char c))%nat
       ∧ (nat_of_ascii (spec_lower_char c) ≤ 90)%nat)
  ∧ (nat_of_ascii c <? 128)%nat = (nat_of_ascii (spec_lower_char c) <? 128)%nat
  ∧ spec_is_separator (spec_lower_char c) = false
  ∧ spec_lower_char (spec_lower_char c) = spec_lower_char c.
Proof.
  intros Hs Hc. rewrite <-!lower_ascii_spec.
  destruct c as [[] [] [] [] [] [] [] []];
    try (exfalso; apply Hc; set_solver);
    (split; [set_solver|]); (split; [vm_compute; lia|]);
    (split; [reflexivity|]); split; reflexivity.
Qed.

Lemma not_separator_elem c :
  spec_is_separator c = false → (c ∉ [" "; ">"; "<"; "="; "["]%char).
Proof. unfold spec_is_separator. by intros ?%bool_decide_eq_false. Qed.

Lemma spec_lower_chars s :
  Forall (λ c, spec_is_separator c = false) (list_ascii_of_string s) →
  Forall (λ c, (c ∉ [" "; ">"; "<"; "="; "["]%char)
               ∧ ¬ ((65 ≤ nat_of_ascii c)%nat ∧ (nat_of_ascii c ≤ 90)%nat))
         (list_ascii_of_string (spec_lower s))
  ∧ is_ascii (spec_lower s) = is_ascii s
  ∧ spec_before_first_separator (spec_lower s) = spec_lower s
  ∧ spec_lower (spec_lower s) = spec_lower s.
Proof.
  unfold is_ascii.
  induction s as [|c rest IH]; [by repeat split|].
  cbn [list_ascii_of_string spec_lower]. intros [Hc Hrest]%Forall_cons.
  destruct (IH Hrest) as (IH1 & IH2 & IH3 & IH4).
  destruct (spec_lower_char_plain c Hc (not_separator_elem c Hc))
    as (H1 & H2 & H3 & H4 & H5).
  split; [by constructor|]. split; [|split].
  - cbn [forallb]. by rewrite IH2, H3.
  - cbn [spec_before_first_separator]. by rewrite H4, IH3.
  - by rewrite H5, IH4.
Qed.

(** A name is in the set exactly when it is the bare name of a text
    entry of the selected lists. *)
Lemma elem_of_parse_requirements req build host run x :
  x ∈ _parse_requirements req build host run
  ↔ ∃ y, Some y ∈ reqlist req build host run ∧ x = spec_bare_name y.
Proof.
  split.
  - unfold _parse_requirements. destruct (truthy req); cbn [negb]; [|set_solver].
    rewrite omap_bare_names, elem_of_list_to_set, list_elem_of_fmap.
    intros (y & -> & Hy). exists y. split; [|done].
    unfold spec_drop_null in Hy. apply list_elem_of_omap in Hy as ([z|] & Hz & Heq);
      [|done]. simpl in Heq. by simplify_eq.
  - intros (y & Hy & ->). by apply parse_requirements_elem.
Qed.

(** The sections that [get_requirements] reads. *)
Lemma elem_of_get_requirements meta outs_flag build host run x :
  x ∈ get_requirements meta outs_flag build host run
  ↔ x ∈ _parse_requirements (get_requirements_key (requirements meta))
          build host run
    ∨ (outs_flag = true
       ∧ ∃ out, out ∈ outputs_list meta
                ∧ x ∈ _parse_requirements
                        (or_empty_mapping
                           (get_requirements_key (output_requirements out)))
                        build host run).
Proof.
  unfold get_requirements. rewrite foldl_union_outputs, elem_of_union.
  rewrite elem_of_union_list. unfold outputs_list. split.
  - intros [?|(X & HX & Hx)]; [by left|]. right.
    apply list_elem_of_fmap in HX as (out & -> & Hout).
    destruct outs_flag; [|by apply elem_of_nil in Hout].
    split; [done|]. exists out. split; [|done].
    by destruct (outputs meta) as [[?|]|].
  - intros [?|(-> & out & Hout & Hx)]; [by left|]. right.
    eexists. split; [|exact Hx]. apply list_elem_of_fmap. exists out.
    split; [done|]. by destruct (outputs meta) as [[?|]|].
Qed.

(** The entries that the code selects are entries of the section. *)
Lemma reqlist_ascii req build host run y :
  section_ascii req → Some y ∈ reqlist req build host run → is_ascii y = true.
Proof.
  destruct req as [|l|m]; cbn [reqlist section_ascii].
  - by intros _ ?%elem_of_nil.
  - intros Hl Hy. destruct (host || run); [|by apply elem_of_nil in Hy].
    rewrite Forall_forall in Hl. by apply (Hl (Some y)).
  - intros Hm Hy.
    assert (Hkey : ∀ key, Some y ∈ get_or_empty m key → is_ascii y = true).
    { intros key. unfold get_or_empty.
      destruct (m !! key) as [[l|]|] eqn:Hk; try by intros ?%elem_of_nil.
      intros Hin. specialize (Hm key (Some l) Hk). cbn beta iota in Hm.
      rewrite Forall_forall in Hm. by apply (Hm (Some y)). }
    rewrite !elem_of_app in Hy. destruct Hy as [Hy|[Hy|Hy]].
    + destruct build; [by eapply Hkey|by apply elem_of_nil in Hy].
    + destruct host; [by eapply Hkey|by apply elem_of_nil in Hy].
    + destruct run; [by eapply Hkey|by apply elem_of_nil in Hy].
Qed.

Lemma or_empty_mapping_ascii s : section_ascii s → section_ascii (or_empty_mapping s).
Proof.
  intros Hs. unfold or_empty_mapping. destruct (truthy s); [done|].
  cbn [section_ascii]. apply map_Forall_empty.
Qed.

Lemma get_requirements_key_ascii r :
  (∀ s, r = Some s → section_ascii s) → section_ascii (get_requirements_key r).
Proof.
  intros Hr. destruct r as [s|]; cbn [get_requirements_key]; [by apply Hr|].
  cbn [section_ascii]. apply map_Forall_empty.
Qed.

(** X3: every name that [get_requirements] returns for a document of
    ASCII text, with any flags, is ASCII text that holds none of the
    separators space, [>], [<], [=] and [[] and no letter from A to Z;
    the normalisation of the code, applied to it again, gives it
    back. *)
Theorem requirement_names_are_normalised meta outs_flag build host run x :
  meta_ascii meta →
  x ∈ get_requirements meta outs_flag build host run →
  Forall (λ c, (c ∉ [" "; ">"; "<"; "="; "["]%char)
               ∧ ¬ ((65 ≤ nat_of_ascii c)%nat ∧ (nat_of_ascii c ≤ 90)%nat))
         (list_ascii_of_string x)
  ∧ is_ascii x = true
  ∧ str_lower (item0 (re_split pin_sep_pat x)) = x.
Proof.
  intros [Htop Houts] Hx.
  assert (∃ y, is_ascii y = true ∧ x = spec_bare_name y) as (y & Hy & ->).
  { apply elem_of_get_requirements in Hx as [Hx|(_ & out & Hout & Hx)];
      apply elem_of_parse_requirements in Hx as (y & Hin & ->); exists y;
      (split; [|done]).
    - eapply reqlist_ascii; [|exact Hin]. by apply get_requirements_key_ascii.
    - eapply reqlist_ascii; [|exact Hin].
      apply or_empty_mapping_ascii, get_requirements_key_ascii.
      unfold outputs_list in Hout.
      destruct (outputs meta) as [[l|]|] eqn:Ho; try by apply elem_of_nil in Hout.
      specialize (Houts l eq_refl). rewrite Forall_forall in Houts.
      by apply Houts. }
  rewrite (spec_bare_name_ascii y Hy).
  pose proof (is_ascii_before_first_separator y Hy) as Hpre.
  destruct (spec_lower_chars _ (before_first_separator_chars y))
    as (Hchars & Hasc & Hsplit & Hlow).
  split; [done|]. split; [by rewrite Hasc|].
  rewrite item0_re_split, Hsplit.
  rewrite str_lower_ascii by (by rewrite Hasc).
  by rewrite lower_spec.
Qed.

Lemma reqlist_flags req build host run y :
  Some y ∈ reqlist req build host run
  ↔ (build = true ∧ Some y ∈ reqlist req true false false)
    ∨ (host = true ∧ Some y ∈ reqlist req false true false)
    ∨ (run = true ∧ Some y ∈ reqlist req false false true).
Proof.
  destruct req as [|l|m]; cbn [reqlist].
  - set_solver.
  - destruct build, host, run; cbn [orb]; set_solver.
  - rewrite !app_nil_r. cbn [app].
    destruct build, host, run; rewrite ?app_nil_r; cbn [app];
      rewrite ?elem_of_app; set_solver.
Qed.

Lemma parse_requirements_flags req build host run :
  _parse_requirements req build host run
  = (if build then _parse_requirements req true false false else ∅)
    ∪ (if host then _parse_requirements req false true false else ∅)
    ∪ (if run then _parse_requirements req false false true else ∅).
Proof.
  apply set_eq. intros x. rewrite !elem_of_union.
  rewrite elem_of_parse_requirements.
  setoid_rewrite reqlist_flags. split.
  - intros (y & [[-> Hy]|[[-> Hy]|[-> Hy]]] & ->).
    + left. left. apply elem_of_parse_requirements. eauto.
    + left. right. apply elem_of_parse_requirements. eauto.
    + right. apply elem_of_parse_requirements. eauto.
  - intros [[Hx|Hx]|Hx].
    + destruct build; [|set_solver].
      apply elem_of_parse_requirements in Hx as (y & Hy & ->). eauto 6.
    + destruct host; [|set_solver].
      apply elem_of_parse_requirements in Hx as (y & Hy & ->). eauto 6.
    + destruct run; [|set_solver].
      apply elem_of_parse_requirements in Hx as (y & Hy & ->). eauto 6.
Qed.

(** The names of a list of entries, whatever the section is. *)
Lemma parse_requirements_names req build host run :
  _parse_requirements req build host run
  = spec_names (reqlist req build host run).
Proof.
  unfold _parse_requirements, spec_names. rewrite omap_bare_names.
  destruct (truthy req) eqn:Ht; cbn [negb]; [done|].
  destruct req as [|[|x l]|m]; cbn [reqlist]; try done.
  - by destruct (host || run).
  - simpl in Ht. apply negb_false_iff, bool_decide_eq_true in Ht. subst m.
    unfold get_or_empty. rewrite !lookup_empty. by destruct build, host, run.
Qed.

(** X4: the flags [build], [host] and [run] select independently: the
    set returned for any flags is the union of the sets returned for
    each enabled flag alone.  With one flag alone, a mapping gives the
    names of the list under the key of that flag, empty when absent or
    null; a flat list gives its names for [host] and for [run] and
    nothing for [build] alone; a null section gives nothing. *)
Theorem get_requirements_flags_select :
  (∀ meta outs_flag build host run,
     get_requirements meta outs_flag build host run
     = (if build then get_requirements meta outs_flag true false false else ∅)
       ∪ (if host then get_requirements meta outs_flag false true false else ∅)
       ∪ (if run then get_requirements meta outs_flag false false true else ∅))
  ∧ (∀ m,
       _parse_requirements (Mapping m) true false false
       = spec_names (spec_list m "build")
       ∧ _parse_requirements (Mapping m) false true false
         = spec_names (spec_list m "host")
       ∧ _parse_requirements (Mapping m) false false true
         = spec_names (spec_list m "run"))
  ∧ (∀ l build host run,
       _parse_requirements (Flat l) build host run
       = if host || run then spec_names l else ∅)
  ∧ (∀ build host run, _parse_requirements Null build host run = ∅).
Proof.
  split; [|split; [|split]].
  - intros meta outs_flag build host run.
    apply set_eq. intros x. rewrite !elem_of_union.
    rewrite elem_of_get_requirements.
    rewrite (parse_requirements_flags _ build host run).
    setoid_rewrite (parse_requirements_flags _ build host run).
    destruct build, host, run; rewrite ?elem_of_get_requirements;
      set_unfold; naive_solver.
  - intros m. rewrite !parse_requirements_names. cbn [reqlist].
    by rewrite !app_nil_r, !get_or_empty_spec.
  - intros l build host run. rewrite parse_requirements_names. cbn [reqlist].
    by destruct (host || run).
  - done.
Qed.

End requirements_names.

Section requirements_names_example.
Import Requirements.
#[local] Existing Instance ascii_lower.

Lemma requirement_names_are_normalised_witness :
  Forall (λ c, (c ∉ [" "; ">"; "<"; "="; "["]%char)
               ∧ ¬ ((65 ≤ nat_of_ascii c)%nat ∧ (nat_of_ascii c ≤ 90)%nat))
         (list_ascii_of_string "numpy")
  ∧ is_ascii "numpy" = true
  ∧ str_lower (item0 (re_split pin_sep_pat "numpy")) = "numpy".
Proof.
  apply (requirement_names_are_normalised example_mixed_case true true true true).
  - split.
    + intros s [= <-]. cbn [section_ascii].
      apply Forall_cons_2; [reflexivity|].
      apply Forall_cons_2; [exact I|].
      apply Forall_cons_2; [reflexivity|apply Forall_nil_2].
    + intros l Hl. discriminate Hl.
  - apply (bool_decide_unpack _). vm_compute. exact I.
Defined.

End requirements_names_example.

(** ** Plucking a node *)

Section pluck.
Import Graph.
Context {N : Type} `{Countable N} {A : Type} (no_attrs : A).
Implicit Types (G : DiGraph N A) (n u v : N).

Lemma elem_of_in_edges G n u v :
  (u, v) ∈ in_edges G n ↔ (u, v) ∈ edges G ∧ v = n.
Proof.
  unfold in_edges. rewrite list_elem_of_filter, elem_of_elements. simpl. tauto.
Qed.

Lemma elem_of_out_edges G n u v :
  (u, v) ∈ out_edges G n ↔ (u, v) ∈ edges G ∧ u = n.
Proof.
  unfold out_edges. rewrite list_elem_of_filter, elem_of_elements. simpl. tauto.
Qed.

(** The distinct predecessors and successors of a node. *)
Lemma elem_of_predecessors G n u :
  u ∈ (list_to_set (fst <$> in_edges G n) : gset N) ↔ (u, n) ∈ edges G.
Proof.
  rewrite elem_of_list_to_set, list_elem_of_fmap. split.
  - intros [[u' v'] [-> [He ->]%elem_of_in_edges]]. exact He.
  - intros He. exists (u, n). split; [done|]. by apply elem_of_in_edges.
Qed.

Lemma elem_of_successors G n v :
  v ∈ (list_to_set (snd <$> out_edges G n) : gset N) ↔ (n, v) ∈ edges G.
Proof.
  rewrite elem_of_list_to_set, list_elem_of_fmap. split.
  - intros [[u' v'] [-> [He ->]%elem_of_out_edges]]. exact He.
  - intros He. exists (n, v). split; [done|]. by apply elem_of_out_edges.
Qed.

Lemma elem_of_product (xs ys : list N) u v :
  (u, v) ∈ product xs ys ↔ u ∈ xs ∧ v ∈ ys.
Proof.
  unfold product. rewrite list_elem_of_bind. split.
  - intros [x [Hy Hx]]. apply list_elem_of_fmap in Hy as [y [[= -> ->] Hy]]. done.
  - intros [Hu Hv]. exists u. split; [|done].
    apply list_elem_of_fmap. by exists v.
Qed.

Lemma remove_node_nodes G G' n :
  remove_node G n = Return G' → nodes G' = nodes G ∖ {[n]}.
Proof.
  unfold remove_node. case_bool_decide; [|discriminate].
  intros [= <-]. unfold nodes. simpl. apply dom_delete_L.
Qed.

Lemma remove_node_edges G G' n u v :
  remove_node G n = Return G' →
  (u, v) ∈ edges G' ↔ (u, v) ∈ edges G ∧ u ≠ n ∧ v ≠ n.
Proof.
  unfold remove_node. case_bool_decide; [|discriminate].
  intros [= <-]. unfold edges. simpl. rewrite !elem_of_dom. split.
  - intros [a [Ha Hp]%map_lookup_filter_Some]. simpl in Hp. eauto.
  - intros [[a Ha] Hp]. exists a. by apply map_lookup_filter_Some.
Qed.

Lemma touch_node_dom (m : gmap N A) n :
  dom (touch_node no_attrs m n) = dom m ∪ {[n]}.
Proof.
  unfold touch_node. destruct (m !! n) eqn:Hn.
  - apply (elem_of_dom_2 m) in Hn. set_solver.
  - rewrite dom_insert_L. set_solver.
Qed.

Lemma add_edge_nodes G u v :
  nodes (add_edge no_attrs G u v) = nodes G ∪ {[u; v]}.
Proof.
  unfold nodes, add_edge. simpl. rewrite !touch_node_dom. set_solver.
Qed.

Lemma add_edge_edges G u v :
  edges (add_edge no_attrs G u v) = edges G ∪ {[(u, v)]}.
Proof.
  unfold edges, add_edge. simpl. destruct (_adj G !! (u, v)) eqn:He.
  - apply (elem_of_dom_2 (_adj G)) in He. set_solver.
  - rewrite dom_insert_L. set_solver.
Qed.

Lemma add_edges_from_nodes G es :
  nodes (add_edges_from no_attrs G es)
  = nodes G ∪ list_to_set (fst <$> es) ∪ list_to_set (snd <$> es).
Proof.
  unfold add_edges_from. revert G.
  induction es as [|[u v] es IH]; intros G; simpl.
  - set_solver.
  - rewrite IH, add_edge_nodes. set_solver.
Qed.

Lemma add_edges_from_edges G es :
  edges (add_edges_from no_attrs G es) = edges G ∪ list_to_set es.
Proof.
  unfold add_edges_from. revert G.
  induction es as [|[u v] es IH]; intros G; simpl.
  - set_solver.
  - rewrite IH, add_edge_edges. set_solver.
Qed.

(** An edge that was there keeps its attributes when edges are added. *)
Lemma add_edges_from_keeps_attrs G es e a :
  _adj G !! e = Some a → _adj (add_edges_from no_attrs G es) !! e = Some a.
Proof.
  unfold add_edges_from. revert G.
  induction es as [|[u v] es IH]; intros G He; simpl; [done|].
  apply IH. unfold add_edge. simpl.
  destruct (_adj G !! (u, v)) eqn:Huv; [done|].
  rewrite lookup_insert_ne; [done|]. congruence.
Qed.

(** Plucking a node that is there: the graph afterwards. *)
Lemma pluck_present G n :
  wf G → n ∈ nodes G →
  ∃ G', pluck no_attrs G n = Return G'
        ∧ nodes G' = nodes G ∖ {[n]}
        ∧ ∀ u v, (u, v) ∈ edges G'
                 ↔ u ≠ n ∧ v ≠ n
                   ∧ ((u, v) ∈ edges G ∨ ((u, n) ∈ edges G ∧ (n, v) ∈ edges G)).
Proof.
  intros Hwf Hn. unfold pluck. rewrite bool_decide_eq_true_2 by done.
  destruct (remove_node G n) as [G1|e] eqn:Hrm.
  2:{ unfold remove_node in Hrm. by rewrite bool_decide_eq_true_2 in Hrm. }
  eexists. split; [reflexivity|]. split.
  - rewrite add_edges_from_nodes, (remove_node_nodes _ _ _ Hrm).
    apply set_eq. intros x.
    rewrite !elem_of_union, !elem_of_list_to_set, !list_elem_of_fmap.
    split; [|tauto]. intros [[Hx|Hx]|Hx]; [done| |].
    + destruct Hx as [[u v] [-> Huv]]. apply elem_of_product in Huv as [Hu _].
      apply elem_of_elements, elem_of_difference in Hu as [Hu Hne].
      apply elem_of_predecessors in Hu. apply Hwf in Hu as [Hu _].
      simpl. set_solver.
    + destruct Hx as [[u v] [-> Huv]]. apply elem_of_product in Huv as [_ Hv].
      apply elem_of_elements, elem_of_difference in Hv as [Hv Hne].
      apply elem_of_successors in Hv. apply Hwf in Hv as [_ Hv].
      simpl. set_solver.
  - intros u v.
    rewrite add_edges_from_edges, elem_of_union, elem_of_list_to_set.
    rewrite (remove_node_edges _ _ _ _ _ Hrm), elem_of_product.
    rewrite !elem_of_elements, !elem_of_difference.
    rewrite elem_of_predecessors, elem_of_successors, !elem_of_singleton.
    tauto.
Qed.

(** Plucking a node that is not there. *)
Lemma pluck_absent G n : n ∉ nodes G → pluck no_attrs G n = Return G.
Proof. intros Hn. unfold pluck. by rewrite bool_decide_eq_false_2. Qed.

(** The invariant of the graph survives the pluck. *)
Lemma pluck_wf G G' n : wf G → pluck no_attrs G n = Return G' → wf G'.
Proof.
  intros Hwf Hp. destruct (decide (n ∈ nodes G)) as [Hn|Hn].
  - destruct (pluck_present G n Hwf Hn) as (G1 & HG1 & Hnodes & Hedges).
    rewrite Hp in HG1. injection HG1 as <-.
    intros u v [Hu [Hv He]]%Hedges. rewrite Hnodes.
    destruct He as [He|[He1 He2]].
    + apply Hwf in He. set_solver.
    + apply Hwf in He1, He2. set_solver.
  - rewrite pluck_absent in Hp by done. by injection Hp as <-.
Qed.

End pluck.

Section pluck_chain.
Import Graph.

Lemma chain_graph_wf {A} (a : A) : wf (chain_graph a).
Proof.
  intros u v. unfold edges, nodes, chain_graph. simpl.
  rewrite !dom_insert_L, !dom_singleton_L. set_solver.
Qed.

Lemma pluck_chain_graph {A} (a : A) :
  ∃ G', pluck a (chain_graph a) "B" = Return G'
        ∧ nodes G' = {[ "A"; "C" ]}
        ∧ edges G' = {[ ("A", "C") ]}.
Proof. eexists. split; [reflexivity|]. split; reflexivity. Qed.

(** C2: on a graph of networkx, whose edges join nodes of the graph,
    plucking a node that is present removes it and leaves exactly the
    edges between the other nodes that were there or that lead from a
    predecessor of the node to a successor of it, so every such pair
    is joined; where the node has no predecessor or no successor other
    than itself, no edge is added.  Plucking an absent node leaves the
    graph as it is.  On the chain from A over B to C, plucking B leaves
    the nodes A and C and the single edge from A to C. *)
Theorem pluck_fuses_predecessors_with_successors
    {N : Type} `{Countable N} {A : Type} (no_attrs : A)
    (G : DiGraph N A) (n : N) :
  wf G →
  (n ∈ nodes G →
   ∃ G', pluck no_attrs G n = Return G'
         ∧ nodes G' = nodes G ∖ {[n]}
         ∧ (∀ u v, (u, v) ∈ edges G'
                   ↔ u ≠ n ∧ v ≠ n
                     ∧ ((u, v) ∈ edges G
                        ∨ ((u, n) ∈ edges G ∧ (n, v) ∈ edges G)))
         ∧ ((∀ u, u ≠ n → (u, n) ∉ edges G) ∨ (∀ v, v ≠ n → (n, v) ∉ edges G) →
            ∀ u v, (u, v) ∈ edges G' ↔ (u, v) ∈ edges G ∧ u ≠ n ∧ v ≠ n))
  ∧ (n ∉ nodes G → pluck no_attrs G n = Return G)
  ∧ (∃ G', pluck no_attrs (chain_graph no_attrs) "B" = Return G'
           ∧ nodes G' = {[ "A"; "C" ]}
           ∧ edges G' = {[ ("A", "C") ]}).
Proof.
  intros Hwf. split; [|split].
  - intros Hn.
    destruct (pluck_present no_attrs G n Hwf Hn) as (G' & Hp & Hnodes & Hedges).
    exists G'. split; [exact Hp|]. split; [exact Hnodes|].
    split; [exact Hedges|].
    intros Hnone u v. rewrite Hedges. naive_solver.
  - apply pluck_absent.
  - apply pluck_chain_graph.
Qed.

Lemma pluck_fuses_predecessors_with_successors_witness :
  wf (chain_graph tt)
  ∧ ∃ G', pluck tt (chain_graph tt) "B" = Return G'
          ∧ nodes G' = nodes (chain_graph tt) ∖ {[ "B" ]}.
Proof.
  split; [apply chain_graph_wf|].
  destruct (pluck_fuses_predecessors_with_successors tt (chain_graph tt) "B"
              (chain_graph_wf tt)) as [Hpresent _].
  destruct Hpresent as (G' & Hp & Hnodes & _).
  - unfold nodes, chain_graph. simpl. rewrite !dom_insert_L. set_solver.
  - exists G'. split; [exact Hp | exact Hnodes].
Defined.

End pluck_chain.

(** ** Connectivity and attributes after a pluck *)

Section pluck_connectivity.
Import Graph.
Context {N : Type} `{Countable N} {A : Type} (no_attrs : A).
Implicit Types (G : DiGraph N A) (n u v : N).

(** The edges after a pluck, on any graph. *)
Lemma pluck_edges G n :
  n ∈ nodes G →
  ∃ G', pluck no_attrs G n = Return G'
        ∧ ∀ u v, (u, v) ∈ edges G'
                 ↔ u ≠ n ∧ v ≠ n
                   ∧ ((u, v) ∈ edges G ∨ ((u, n) ∈ edges G ∧ (n, v) ∈ edges G)).
Proof.
  intros Hn. unfold pluck. rewrite bool_decide_eq_true_2 by done.
  destruct (remove_node G n) as [G1|e] eqn:Hrm.
  2:{ unfold remove_node in Hrm. by rewrite bool_decide_eq_true_2 in Hrm. }
  eexists. split; [reflexivity|].
  intros u v.
  rewrite add_edges_from_edges, elem_of_union, elem_of_list_to_set.
  rewrite (remove_node_edges _ _ _ _ _ Hrm), elem_of_product.
  rewrite !elem_of_elements, !elem_of_difference.
  rewrite elem_of_predecessors, elem_of_successors, !elem_of_singleton.
  tauto.
Qed.

(** A walk of the graph, cut at its visits of the plucked node. *)
Lemma reachable_after_pluck G G' n :
  (∀ u v, (u, v) ∈ edges G'
          ↔ u ≠ n ∧ v ≠ n
            ∧ ((u, v) ∈ edges G ∨ ((u, n) ∈ edges G ∧ (n, v) ∈ edges G))) →
  ∀ u v, reachable G u v → v ≠ n →
    (u ≠ n → reachable G' u v)
    ∧ (u = n → ∃ b, (n, b) ∈ edges G ∧ b ≠ n ∧ reachable G' b v).
Proof.
  intros Hedges u v Huv Hv. unfold reachable in *.
  induction Huv as [u|u y v Hstep Hrest IH].
  - split; [done|]. by intros ->.
  - destruct (IH Hv) as [IH1 IH2]. split.
    + intros Hu. destruct (decide (y = n)) as [->|Hy].
      * destruct (IH2 eq_refl) as (b & Hb & Hbn & Hbv).
        eapply rtc_l; [|exact Hbv]. apply Hedges. tauto.
      * eapply rtc_l; [|by apply IH1]. apply Hedges. tauto.
    + intros ->. destruct (decide (y = n)) as [->|Hy].
      * by apply IH2.
      * exists y. split; [done|]. split; [done|]. by apply IH1.
Qed.

Lemma reachable_before_pluck G G' n :
  (∀ u v, (u, v) ∈ edges G'
          ↔ u ≠ n ∧ v ≠ n
            ∧ ((u, v) ∈ edges G ∨ ((u, n) ∈ edges G ∧ (n, v) ∈ edges G))) →
  ∀ u v, reachable G' u v → reachable G u v.
Proof.
  intros Hedges u v Huv. unfold reachable in *.
  induction Huv as [u|u y v Hstep Hrest IH]; [done|].
  apply Hedges in Hstep as (_ & _ & [Hd|[H1 H2]]).
  - by eapply rtc_l.
  - eapply rtc_l; [exact H1|]. by eapply rtc_l.
Qed.

(** X5: [pluck] returns on every graph and node, and between the nodes
    other than the plucked one it neither breaks nor makes a connection:
    one is reachable from the other along the edges afterwards exactly
    when it was before. *)
Theorem pluck_preserves_reachability G n :
  ∃ G', pluck no_attrs G n = Return G'
        ∧ ∀ u v, u ≠ n → v ≠ n → (reachable G u v ↔ reachable G' u v).
Proof.
  destruct (decide (n ∈ nodes G)) as [Hn|Hn].
  - destruct (pluck_edges G n Hn) as (G' & Hp & Hedges).
    exists G'. split; [done|]. intros u v Hu Hv. split.
    + intros Huv. by apply (reachable_after_pluck G G' n Hedges u v Huv Hv).
    + by apply (reachable_before_pluck G G' n).
  - exists G. split; [by apply pluck_absent|]. done.
Qed.

(** X6: on a graph whose edges join its nodes, [pluck] returns a graph
    with the same nodes but the plucked one, with no edge at that node,
    whose edges again join its nodes; plucking the same node once more
    changes nothing. *)
Theorem pluck_removes_node_for_good G n :
  wf G →
  ∃ G', pluck no_attrs G n = Return G'
        ∧ nodes G' = nodes G ∖ {[n]}
        ∧ (∀ u v, (u, v) ∈ edges G' → u ≠ n ∧ v ≠ n)
        ∧ wf G'
        ∧ pluck no_attrs G' n = Return G'.
Proof.
  intros Hwf. destruct (decide (n ∈ nodes G)) as [Hn|Hn].
  - destruct (pluck_present no_attrs G n Hwf Hn) as (G' & Hp & Hnodes & Hedges).
    exists G'. split; [done|]. split; [done|]. split.
    + intros u v Huv%Hedges. tauto.
    + split; [by eapply pluck_wf|]. apply pluck_absent. set_solver.
  - exists G. split; [by apply pluck_absent|]. split; [set_solver|]. split.
    + intros u v [Hu Hv]%Hwf. set_solver.
    + split; [done|]. by apply pluck_absent.
Qed.

Lemma touch_node_keeps (m : gmap N A) n u a :
  m !! u = Some a → touch_node no_attrs m n !! u = Some a.
Proof.
  intros Hu. unfold touch_node. destruct (m !! n) eqn:Hn; [done|].
  rewrite lookup_insert_ne; [done|]. congruence.
Qed.

Lemma add_edges_from_keeps_node_attrs G es u a :
  _node G !! u = Some a → _node (add_edges_from no_attrs G es) !! u = Some a.
Proof.
  unfold add_edges_from. revert G.
  induction es as [|[x y] es IH]; intros G Hu; simpl; [done|].
  apply IH. unfold add_edge. simpl. by do 2 apply touch_node_keeps.
Qed.

Lemma add_edges_from_new_attrs G es e a :
  _adj (add_edges_from no_attrs G es) !! e = Some a →
  _adj G !! e = Some a ∨ (_adj G !! e = None ∧ a = no_attrs).
Proof.
  unfold add_edges_from. revert G.
  induction es as [|[x y] es IH]; intros G He; simpl in *; [by left|].
  apply IH in He. unfold add_edge in He. simpl in He.
  destruct (_adj G !! (x, y)) eqn:Hxy; [done|].
  destruct (decide (e = (x, y))) as [->|Hne].
  - rewrite lookup_insert_eq in He. right. split; [done|].
    destruct He as [[= <-]|[? _]]; done.
  - by rewrite lookup_insert_ne in He.
Qed.

(** X7: [pluck] keeps the attributes of every other node and of every
    edge between other nodes, and an edge that it adds carries the empty
    attributes. *)
Theorem pluck_keeps_attributes G n :
  ∃ G', pluck no_attrs G n = Return G'
        ∧ (∀ u a, u ≠ n → _node G !! u = Some a → _node G' !! u = Some a)
        ∧ (∀ u v a, u ≠ n → v ≠ n →
             _adj G !! (u, v) = Some a → _adj G' !! (u, v) = Some a)
        ∧ (∀ u v a, _adj G' !! (u, v) = Some a →
             _adj G !! (u, v) = Some a
             ∨ (_adj G !! (u, v) = None ∧ a = no_attrs)).
Proof.
  destruct (decide (n ∈ nodes G)) as [Hn|Hn].
  2:{ exists G. split; [by apply pluck_absent|]. split; [done|]. split; [done|].
      intros. by left. }
  destruct (pluck_edges G n Hn) as (G' & Hp & Hedges).
  exists G'. split; [done|].
  unfold pluck in Hp. rewrite bool_decide_eq_true_2 in Hp by done.
  unfold remove_node in Hp. rewrite bool_decide_eq_true_2 in Hp by done.
  injection Hp as Hp. split; [|split].
  - intros u a Hu Hua. subst G'. apply add_edges_from_keeps_node_attrs. simpl.
    by rewrite lookup_delete_ne.
  - intros u v a Hu Hv Ha. subst G'. apply add_edges_from_keeps_attrs. simpl.
    by apply map_lookup_filter_Some.
  - intros u v a Ha.
    assert (Hin : (u, v) ∈ edges G') by (by apply elem_of_dom_2 in Ha).
    apply Hedges in Hin as (Hu & Hv & _).
    subst G'. apply add_edges_from_new_attrs in Ha. simpl in Ha.
    destruct Ha as [Ha|[Ha ->]].
    + apply map_lookup_filter_Some in Ha as [Ha _]. by left.
    + destruct (_adj G !! (u, v)) as [a'|] eqn:Huv; [|by right].
      assert (filter (λ kv, kv.1.1 ≠ n ∧ kv.1.2 ≠ n) (_adj G) !! (u, v) = Some a')
        as Hf by (by apply map_lookup_filter_Some).
      congruence.
Qed.

End pluck_connectivity.

Section pluck_connectivity_example.
Import Graph.

Lemma pluck_removes_node_for_good_witness :
  ∃ G', pluck tt (chain_graph tt) "B" = Return G'
        ∧ nodes G' = nodes (chain_graph tt) ∖ {[ "B" ]}
        ∧ (∀ u v, (u, v) ∈ edges G' → u ≠ "B" ∧ v ≠ "B")
        ∧ wf G'
        ∧ pluck tt G' "B" = Return G'.
Proof.
  apply (pluck_removes_node_for_good tt (chain_graph tt) "B").
  apply chain_graph_wf.
Defined.

End pluck_connectivity_example.

(** ** The json module: what is read is written back *)

Section json_codec.
Import Json.

Lemma json_size_elem (l : list json) (j : json) :
  j ∈ l → json_size j < json_size (JArr l).
Proof.
  simpl. induction 1 as [j l|j j' l _ IH]; simpl; lia.
Qed.

Lemma json_size_lookup (m : gmap string json) (k : string) (j : json) :
  m !! k = Some j → json_size j < json_size (JObj m).
Proof.
  intros Hk. simpl.
  rewrite (map_fold_delete_L _ _ k j m); [lia| |done].
  intros. lia.
Qed.

(** Induction over documents, with the hypothesis for every element of
    an array and every value of an object. *)
Lemma json_nested_ind (P : json → Prop) :
  P JNull → (∀ b, P (JBool b)) → (∀ z, P (JInt z)) → (∀ f, P (JFloat f)) →
  (∀ s, P (JStr s)) →
  (∀ l, Forall P l → P (JArr l)) →
  (∀ m, map_Forall (λ _, P) m → P (JObj m)) →
  ∀ j, P j.
Proof.
  intros Hnull Hbool Hint Hfloat Hstr Harr Hobj j.
  remember (json_size j) as n eqn:Hn. revert j Hn.
  induction n as [n IH] using lt_wf_ind. intros j ->.
  destruct j as [| | | | |l|m]; auto.
  - apply Harr. apply Forall_forall. intros j Hj.
    apply (IH (json_size j)); [by apply json_size_elem | done].
  - apply Hobj. intros k j Hk.
    apply (IH (json_size j)); [by eapply json_size_lookup | done].
Qed.

Lemma mapM_cons {A B} (f : A → result B) x xs :
  mapM f (x :: xs)
  = match f x with
    | Return y =>
        match mapM f xs with
        | Return ys => Return (y :: ys)
        | Raise e => Raise e
        end
    | Raise e => Raise e
    end.
Proof. reflexivity. Qed.

Lemma mapM_fmap_Return {A B} (f : A → result B) (g : B → A) (l : list B) :
  Forall (λ y, f (g y) = Return y) l → mapM f (g <$> l) = Return l.
Proof.
  induction 1 as [|y l Hy _ IH]; [done|].
  by rewrite fmap_cons, mapM_cons, Hy, IH.
Qed.

Lemma map_mapM_fmap_Return {A B} (f : A → result B) (g : B → A)
    (m : gmap string B) :
  map_Forall (λ _ y, f (g y) = Return y) m → map_mapM f (g <$> m) = Return m.
Proof.
  unfold map_mapM. rewrite map_fold_fmap.
  apply (map_fold_weak_ind
           (λ r m, map_Forall (λ _ y, f (g y) = Return y) m → r = Return m)).
  - done.
  - intros k y m' r Hk IH Hall.
    apply map_Forall_insert in Hall as [Hy Hall]; [|done].
    rewrite (IH Hall). simpl. by rewrite Hy.
Qed.

Lemma map_mapM_singleton {A B} (f : A → result B) k x y :
  f x = Return y → map_mapM f {[ k := x ]} = Return {[ k := y ]}.
Proof.
  intros Hf. unfold map_mapM. rewrite map_fold_singleton, Hf.
  by rewrite insert_empty.
Qed.

(** What [json.load] builds, [json.dump] writes back as it was read,
    whatever would be done with an object of another type. *)
Lemma encode_with_list foreign l :
  encode_with foreign (PList l)
  = match mapM (encode_with foreign) l with
    | Return js => Return (JArr js)
    | Raise e => Raise e
    end.
Proof. reflexivity. Qed.

Lemma encode_with_dict foreign d :
  encode_with foreign (PDict d)
  = match map_mapM (encode_with foreign) d with
    | Return m => Return (JObj m)
    | Raise e => Raise e
    end.
Proof. reflexivity. Qed.

Lemma encode_with_decode foreign (j : json) :
  encode_with foreign (decode j) = Return j.
Proof.
  induction j as [| | | | |l IH|m IH] using json_nested_ind; try reflexivity.
  - cbn [decode]. by rewrite encode_with_list, mapM_fmap_Return.
  - cbn [decode]. by rewrite encode_with_dict, map_mapM_fmap_Return.
Qed.

Lemma encode_unfold fuel hook o :
  encode fuel hook o
  = encode_with
      (λ o', match hook with
             | None => Raise TypeError
             | Some h =>
                 match fuel with
                 | O => Raise RecursionError
                 | S fuel' =>
                     match h o' with
                     | Return r => encode fuel' hook r
                     | Raise e => Raise e
                     end
                 end
             end) o.
Proof. by destruct fuel. Qed.

Lemma encode_decode fuel hook (j : json) : encode fuel hook (decode j) = Return j.
Proof. rewrite encode_unfold. apply encode_with_decode. Qed.

Lemma encode_hooked fuel hook fn d r :
  hook (PLazyJson fn d) = Return r →
  encode (S fuel) (Some hook) (PLazyJson fn d) = encode fuel (Some hook) r.
Proof. intros Hh. simpl. by rewrite Hh. Qed.

Lemma encode_empty_dict : encode 0 None (PDict ∅) = Return (JObj ∅).
Proof. reflexivity. Qed.

End json_codec.

(** ** The encoder on every object *)

Section encoder.
Import Json Codec.

Lemma pyobj_size_elem (l : list pyobj) (o : pyobj) :
  o ∈ l → pyobj_size o < pyobj_size (PList l).
Proof.
  simpl. induction 1 as [o l|o o' l _ IH]; simpl; lia.
Qed.

Lemma pyobj_size_lookup (d : gmap string pyobj) (k : string) (o : pyobj) :
  d !! k = Some o → pyobj_size o < pyobj_size (PDict d).
Proof.
  intros Hk. simpl.
  rewrite (map_fold_delete_L _ _ k o d); [lia| |done].
  intros. lia.
Qed.

(** Induction over objects, with the hypothesis for every item of a
    list, every value of a dictionary and the cache of a store. *)
Lemma pyobj_nested_ind (P : pyobj → Prop) :
  P PNone → (∀ b, P (PBool b)) → (∀ z, P (PInt z)) → (∀ f, P (PFloat f)) →
  (∀ s, P (PStr s)) →
  (∀ l, Forall P l → P (PList l)) →
  (∀ d, map_Forall (λ _, P) d → P (PDict d)) →
  (∀ fn d, P d → P (PLazyJson fn d)) →
  ∀ o, P o.
Proof.
  intros Hnone Hbool Hint Hfloat Hstr Hlist Hdict Hlazy o.
  remember (pyobj_size o) as n eqn:Hn. revert o Hn.
  induction n as [n IH] using lt_wf_ind. intros o ->.
  destruct o as [| | | | |l|d|fn d]; auto.
  - apply Hlist. apply Forall_forall. intros o Ho.
    apply (IH (pyobj_size o)); [by apply pyobj_size_elem | done].
  - apply Hdict. intros k o Hk.
    apply (IH (pyobj_size o)); [by eapply pyobj_size_lookup | done].
  - apply Hlazy. apply (IH (pyobj_size d)); [simpl; lia | done].
Qed.

Lemma mapM_Return {A B} (f : A → result B) (g : A → B) (l : list A) :
  Forall (λ x, f x = Return (g x)) l → mapM f l = Return (g <$> l).
Proof.
  induction 1 as [|x l Hx _ IH]; [done|].
  by rewrite mapM_cons, Hx, IH.
Qed.

Lemma map_mapM_Return {A B} (f : A → result B) (g : A → B) (d : gmap string A) :
  map_Forall (λ _ x, f x = Return (g x)) d → map_mapM f d = Return (g <$> d).
Proof.
  unfold map_mapM.
  apply (map_fold_weak_ind
           (λ r d, map_Forall (λ _ x, f x = Return (g x)) d → r = Return (g <$> d))).
  - intros _. by rewrite fmap_empty.
  - intros k x d' r Hk IH Hall.
    apply map_Forall_insert in Hall as [Hx Hall]; [|done].
    rewrite (IH Hall), Hx. by rewrite fmap_insert.
Qed.






(** [dumps] writes the document of the object. *)
Lemma encode_to_doc fuel o : encode (S fuel) (Some default) o = Return (to_doc o).
Proof.
  rewrite encode_unfold.
  induction o as [| | | | |l IH|d IH|fn d IH] using pyobj_nested_ind;
    try reflexivity.
  - rewrite encode_with_list. by rewrite (mapM_Return _ to_doc).
  - rewrite encode_with_dict. by rewrite (map_mapM_Return _ to_doc).
  - cbn [encode_with default to_doc]. rewrite encode_unfold, encode_with_dict.
    by rewrite (map_mapM_singleton _ _ _ (JStr fn)).
Qed.

End encoder.

(** ** The file system *)

Ltac eff_unfold :=
  unfold bind, ret, raise, catch, get, modify, lift_result, on_snd in *.

Section file_system.
Import Json Os.
Context `{JsonText}.
Implicit Types (σ : fs text) (p : string).

Lemma isdir_files σ (f : gmap string text) p :
  isdir {| files := f; dirs := dirs σ |} p = isdir σ p.
Proof. reflexivity. Qed.

Lemma parent_error_insert σ p q t :
  isdir σ q = false →
  is_Some (files σ !! q) →
  parent_error {| files := <[q := t]> (files σ); dirs := dirs σ |} p
  = parent_error σ p.
Proof.
  intros Hq [t0 Ht0]. unfold parent_error.
  case_bool_decide; [done|]. rewrite isdir_files.
  destruct (isdir σ (split p).1) eqn:Hd; [done|].
  unfold isfile. rewrite isdir_files, Hd. simpl.
  destruct (decide ((split p).1 = q)) as [->|Hne].
  - by rewrite lookup_insert_eq, Ht0.
  - by rewrite lookup_insert_ne.
Qed.

Lemma path_exists_insert σ p q (t : text) :
  path_exists σ p = true →
  path_exists {| files := <[q := t]> (files σ); dirs := dirs σ |} p = true.
Proof.
  unfold path_exists, isfile. rewrite !isdir_files. cbn [files].
  destruct (isdir σ p); [done|]. cbn [orb negb andb].
  destruct (bool_decide (p = "")); [done|]. cbn [negb andb].
  intros Hf%bool_decide_eq_true. apply bool_decide_eq_true.
  destruct (decide (q = p)) as [->|Hne].
  - rewrite lookup_insert_eq. by eexists.
  - by rewrite lookup_insert_ne.
Qed.

Lemma parent_error_None σ p :
  parent_error σ p = None → (split p).1 = "" ∨ isdir σ (split p).1 = true.
Proof.
  unfold parent_error. case_bool_decide; [by left|].
  destruct (isdir σ (split p).1); [by right|].
  by destruct (isfile σ (split p).1).
Qed.

Lemma isdir_cases σ d :
  isdir σ d = true → d ≠ "" ∧ (d ∈ dirs σ ∨ all_sep d = true ∨ d = ".").
Proof.
  unfold isdir. intros [Hd Hc]%andb_true_iff.
  apply negb_true_iff, bool_decide_eq_false in Hd. split; [done|].
  apply orb_true_iff in Hc as [Hc|Hc]; [|right; right; by apply bool_decide_eq_true in Hc].
  apply orb_true_iff in Hc as [Hc|Hc]; [left; by apply bool_decide_eq_true in Hc|].
  right. by left.
Qed.

Lemma open_r_file σ p t :
  p ≠ "" → isdir σ p = false → files σ !! p = Some t →
  open_r p σ = (Return t, σ).
Proof.
  intros Hp Hd Hf. unfold open_r. eff_unfold. simpl.
  rewrite Hd, Hf. by rewrite bool_decide_eq_false_2.
Qed.

Lemma names_file_nonempty p : names_file p → p ≠ "".
Proof. by intros Hn ->. Qed.

Lemma open_w_file σ p :
  names_file p → isdir σ p = false → parent_error σ p = None →
  open_w text_empty p σ
  = (Return tt, {| files := <[p := text_empty]> (files σ); dirs := dirs σ |}).
Proof.
  intros Hp Hd Hpar. unfold open_w. eff_unfold. simpl.
  rewrite bool_decide_eq_false_2 by (by apply names_file_nonempty).
  rewrite Hd, (bool_decide_eq_false_2 _ Hp). simpl. by rewrite Hpar.
Qed.

Lemma open_w_inv σ σ' p :
  open_w text_empty p σ = (Return tt, σ') →
  names_file p ∧ isdir σ p = false ∧ parent_error σ p = None
  ∧ σ' = {| files := <[p := text_empty]> (files σ); dirs := dirs σ |}.
Proof.
  unfold open_w, bind, get, raise, modify.
  case_bool_decide as Hp; [discriminate|].
  destruct (isdir σ p); [discriminate|]. cbn [orb].
  case_bool_decide as Hn; [discriminate|].
  destruct (parent_error σ p); [discriminate|].
  by intros [= <-].
Qed.

Lemma cut_last_sep_all_sep (q : string) :
  q ≠ "" → all_sep q = true → cut_last_sep q = Some (q, "").
Proof.
  induction q as [|c rest IH]; [done|]. intros _ Hall. simpl in Hall.
  apply andb_true_iff in Hall as [Hc Hrest]. simpl.
  destruct rest as [|c' rest'].
  - simpl. by rewrite Hc.
  - by rewrite IH.
Qed.

Lemma split_all_sep (q : string) :
  q ≠ "" → all_sep q = true → split q = (q, "").
Proof.
  intros Hs Hall. unfold split. rewrite cut_last_sep_all_sep by done.
  rewrite Hall. by rewrite andb_false_r.
Qed.

(** [os.mkdir] of a directory that is there, forgiven by [exist_ok]. *)
Lemma mkdir_existing σ name :
  isdir σ name = true →
  catch (mkdir name)
        (λ e, if is_OSError e then
                σ ⇐ get ;;
                if negb true || negb (isdir σ name) then raise e else ret tt
              else raise e) σ
  = (Return tt, σ).
Proof.
  intros Hd. destruct (isdir_cases σ name Hd) as [Hne _].
  unfold catch, mkdir, bind, get, raise, ret.
  rewrite bool_decide_eq_false_2 by done.
  unfold path_exists. rewrite Hd. simpl. by rewrite Hd.
Qed.

(** [os.makedirs] of a directory that is there changes nothing. *)
Lemma makedirs_fuel_isdir σ name fuel :
  wf_fs σ → isdir σ name = true →
  makedirs_fuel (S fuel) name true σ = (Return tt, σ).
Proof.
  intros Hwf Hd. destruct (isdir_cases σ name Hd) as [Hne Hc].
  assert (Hskip : ∀ head tail,
             (let '(head, tail) := split name in
              if bool_decide (tail = "") then split head else (head, tail))
             = (head, tail) →
             negb (bool_decide (head = "")) && negb (bool_decide (tail = ""))
             && negb (path_exists σ head) = false).
  { intros head tail. destruct Hc as [Hin|[Hall| ->]].
    - destruct (Hwf name Hin) as [Ht Hpar]. destruct (split name) as [h t] eqn:Hs.
      simpl in Ht. rewrite bool_decide_eq_false_2 by done. intros [= <- <-].
      apply parent_error_None in Hpar. rewrite Hs in Hpar. simpl in Hpar.
      destruct Hpar as [->|Hh]; [done|].
      unfold path_exists. rewrite Hh. simpl. apply andb_false_r.
    - rewrite split_all_sep by done. simpl. rewrite split_all_sep by done.
      intros [= <- <-]. simpl. by rewrite andb_false_r.
    - simpl. by intros [= <- <-]. }
  cbn [makedirs_fuel].
  destruct (let '(head, tail) := split name in
            if bool_decide (tail = "") then split head else (head, tail))
    as [head tail] eqn:Hsplit.
  specialize (Hskip head tail eq_refl).
  destruct (split name) as [h0 t0]. rewrite Hsplit.
  unfold bind at 1. unfold get. unfold bind at 1. rewrite Hskip.
  unfold ret at 1. by apply mkdir_existing.
Qed.

Lemma cut_last_sep_length p h t :
  cut_last_sep p = Some (h, t) → String.length h + String.length t = String.length p.
Proof.
  revert h t. induction p as [|c rest IH]; intros h t; simpl; [done|].
  destruct (cut_last_sep rest) as [[h' t']|].
  - intros [= <- <-]. simpl. by rewrite (IH h' t').
  - destruct (Ascii.eqb c sep); [|done]. intros [= <- <-]. simpl. lia.
Qed.

Lemma rstrip_sep_length (q : string) :
  (String.length (rstrip_sep q) ≤ String.length q)%nat.
Proof.
  induction q as [|c rest IH]; simpl; [done|].
  destruct (rstrip_sep rest); [destruct (Ascii.eqb c sep)|]; simpl in *; lia.
Qed.

(** The two parts of a path are no longer than the path. *)
Lemma split_length p :
  (String.length (split p).1 + String.length (split p).2 ≤ String.length p)%nat.
Proof.
  unfold split. destruct (cut_last_sep p) as [[h t]|] eqn:Hcut.
  - apply cut_last_sep_length in Hcut.
    destruct (negb (bool_decide (h = "")) && negb (all_sep h)); simpl; [|lia].
    pose proof (rstrip_sep_length h). lia.
  - simpl. lia.
Qed.

Lemma mkdir_no_recursion_error name σ :
  (mkdir name σ).1 ≠ Raise RecursionError.
Proof.
  unfold mkdir, bind, get, raise, modify.
  case_bool_decide; [done|]. destruct (path_exists σ name); [done|].
  unfold parent_error. case_bool_decide; [done|].
  destruct (isdir σ (split name).1); [done|].
  by destruct (isfile σ (split name).1).
Qed.

(** The fuel of [makedirs] is enough: the recursion of the library ends
    before the bound is met. *)
Lemma makedirs_fuel_enough fuel name exist_ok σ :
  (String.length name < fuel)%nat →
  (makedirs_fuel fuel name exist_ok σ).1 ≠ Raise RecursionError.
Proof.
  revert name σ. induction fuel as [|fuel IH]; intros name σ Hlen; [lia|].
  cbn [makedirs_fuel].
  pose proof (split_length name) as Hs.
  destruct (split name) as [h0 t0] eqn:Hsplit. simpl in Hs.
  assert (Hpair : ∃ head tail,
             (if bool_decide (t0 = "") then split h0 else (h0, t0)) = (head, tail)
             ∧ (tail ≠ "" → (String.length head < fuel)%nat)).
  { case_bool_decide as Ht.
    - pose proof (split_length h0) as Hs'.
      destruct (split h0) as [h1 t1]. simpl in Hs'. exists h1, t1.
      split; [done|]. intros Hne. destruct t1; [done|]. simpl in Hs'. lia.
    - exists h0, t0. split; [done|]. intros _. destruct t0; [done|].
      simpl in Hs. lia. }
  destruct Hpair as (head & tail & -> & Hshort).
  unfold bind at 1. unfold get. unfold bind at 1.
  destruct (negb (bool_decide (head = "")) && negb (bool_decide (tail = ""))
            && negb (path_exists σ head)) eqn:Hcond.
  - apply andb_true_iff in Hcond as [[_ Ht]%andb_true_iff _].
    apply negb_true_iff, bool_decide_eq_false in Ht.
    unfold bind at 1. unfold catch at 1.
    specialize (IH head σ (Hshort Ht)).
    destruct (makedirs_fuel fuel head exist_ok σ) as [[[]|e] σ1].
    + unfold ret at 1. destruct (bool_decide (tail = ".")); [done|].
      unfold catch. pose proof (mkdir_no_recursion_error name σ1) as Hm.
      destruct (mkdir name σ1) as [[[]|e] σ2]; [done|]. simpl in Hm.
      destruct (is_OSError e) eqn:He.
      * unfold bind, get. destruct (negb exist_ok || negb (isdir σ2 name)); done.
      * done.
    + case_bool_decide as He.
      * unfold ret at 1 2. destruct (bool_decide (tail = ".")); [done|].
        unfold catch. pose proof (mkdir_no_recursion_error name σ1) as Hm.
        destruct (mkdir name σ1) as [[[]|e'] σ2]; [done|]. simpl in Hm.
        destruct (is_OSError e') eqn:He'.
        -- unfold bind, get.
           destruct (negb exist_ok || negb (isdir σ2 name)); done.
        -- done.
      * simpl in IH. unfold raise. done.
  - unfold ret at 1. unfold catch.
    pose proof (mkdir_no_recursion_error name σ) as Hm.
    destruct (mkdir name σ) as [[[]|e] σ2]; [done|]. simpl in Hm.
    destruct (is_OSError e) eqn:He.
    + unfold bind, get. destruct (negb exist_ok || negb (isdir σ2 name)); done.
    + done.
Qed.

Lemma makedirs_no_recursion_error name exist_ok σ :
  (makedirs name exist_ok σ).1 ≠ Raise RecursionError.
Proof. apply makedirs_fuel_enough. lia. Qed.

Lemma isdir_mono σ σ' d :
  dirs σ ⊆ dirs σ' → isdir σ d = true → isdir σ' d = true.
Proof.
  intros Hsub [Hne Hc]%isdir_cases. unfold isdir.
  rewrite bool_decide_eq_false_2 by done. cbn [negb andb].
  destruct Hc as [Hin|[Hall| ->]].
  - rewrite bool_decide_eq_true_2; [done|]. by apply Hsub.
  - rewrite Hall. by rewrite orb_true_r.
  - by rewrite orb_true_r.
Qed.

Lemma parent_error_mono σ σ' d :
  dirs σ ⊆ dirs σ' → parent_error σ d = None → parent_error σ' d = None.
Proof.
  intros Hsub [Hh|Hh]%parent_error_None; unfold parent_error.
  - by rewrite bool_decide_eq_true_2.
  - case_bool_decide; [done|]. by rewrite (isdir_mono σ σ').
Qed.

(** [os.mkdir] of a free name in a directory that is there. *)
Lemma mkdir_new σ d :
  wf_fs σ → path_exists σ d = false → (split d).2 ≠ "" →
  parent_error σ d = None →
  mkdir d σ = (Return tt, {| files := files σ; dirs := {[d]} ∪ dirs σ |})
  ∧ wf_fs {| files := files σ; dirs := {[d]} ∪ dirs σ |}
  ∧ isdir {| files := files σ; dirs := {[d]} ∪ dirs σ |} d = true.
Proof.
  intros Hwf He Ht Hpar.
  assert (Hd : d ≠ "") by (by intros ->).
  split; [|split].
  - unfold mkdir, bind, get, modify.
    rewrite bool_decide_eq_false_2 by done. by rewrite He, Hpar.
  - intros x Hx. cbn [dirs] in Hx.
    assert (Hsub : dirs σ ⊆ dirs {| files := files σ; dirs := {[d]} ∪ dirs σ |})
      by (cbn [dirs]; set_solver).
    apply elem_of_union in Hx as [->%elem_of_singleton|Hx].
    + split; [done|]. by apply (parent_error_mono σ).
    + destruct (Hwf x Hx) as [? ?]. split; [done|].
      by apply (parent_error_mono σ).
  - unfold isdir. rewrite bool_decide_eq_false_2 by done. cbn [dirs].
    rewrite bool_decide_eq_true_2; [done|]. set_solver.
Qed.

Lemma path_exists_false σ d :
  d ≠ "" → path_exists σ d = false →
  (d ∉ dirs σ) ∧ all_sep d = false ∧ d ≠ "." ∧ files σ !! d = None.
Proof.
  intros Hd. unfold path_exists, isfile, isdir.
  rewrite bool_decide_eq_false_2 by done. cbn [negb andb].
  intros [Hdir Hfile]%orb_false_iff. rewrite Hdir in Hfile. cbn [negb andb] in Hfile.
  apply orb_false_iff in Hdir as [[Hin Hall]%orb_false_iff Hdot].
  apply bool_decide_eq_false in Hin, Hdot, Hfile.
  repeat split; try done. by apply eq_None_not_Some.
Qed.

(** [os.makedirs] provides every directory that can be provided: it
    returns, the directory is there afterwards, no file is touched and
    no directory is lost; the directories it adds have names no longer
    than the one asked for. *)
Lemma makedirs_fuel_creatable σ d :
  wf_fs σ → creatable σ d →
  ∀ fuel, (String.length d < fuel)%nat →
  ∃ σ', makedirs_fuel fuel d true σ = (Return tt, σ')
        ∧ files σ' = files σ
        ∧ isdir σ' d = true
        ∧ wf_fs σ'
        ∧ dirs σ ⊆ dirs σ'
        ∧ ∀ x, x ∈ dirs σ' → x ∈ dirs σ ∨ (String.length x ≤ String.length d)%nat.
Proof.
  intros Hwf Hc.
  induction Hc as [d Hd|d He Ht Hdot Htop|d He Ht Hdot Hcre IH]; intros fuel Hfuel.
  - destruct fuel as [|fuel]; [lia|]. exists σ.
    rewrite makedirs_fuel_isdir by done.
    split; [done|]. split; [done|]. split; [done|]. split; [done|].
    split; [done|]. intros x Hx. by left.
  - (* in the working directory *)
    destruct fuel as [|fuel]; [lia|].
    cbn [makedirs_fuel].
    assert (Hpar : parent_error σ d = None).
    { unfold parent_error. by rewrite bool_decide_eq_true_2. }
    destruct (split d) as [head tail] eqn:Hsplit. cbn [fst snd] in *. subst head.
    rewrite (bool_decide_eq_false_2 (tail = "")) by done.
    unfold bind at 1. unfold get. unfold bind at 1.
    cbn [negb andb]. rewrite bool_decide_eq_true_2 by done.
    cbn [negb andb]. unfold ret at 1. unfold catch.
    destruct (mkdir_new σ d Hwf He) as (Hmk & Hwf' & Hdir'); [by rewrite Hsplit|done|].
    rewrite Hmk. eexists. split; [reflexivity|].
    split; [done|]. split; [done|]. split; [done|].
    split; [cbn [dirs]; set_solver|]. cbn [dirs].
    intros x [->%elem_of_singleton|Hx]%elem_of_union; [right; lia|by left].
  - destruct fuel as [|fuel]; [lia|].
    assert (Hdne : d ≠ "") by (by intros ->).
    destruct (path_exists_false σ d Hdne He) as (Hnin & Hall & Hnd & Hnf).
    pose proof (split_length d) as Hlen.
    cbn [makedirs_fuel].
    destruct (split d) as [head tail] eqn:Hsplit. cbn [fst snd] in *.
    rewrite (bool_decide_eq_false_2 (tail = "")) by done.
    assert (Hhead : (String.length head < fuel)%nat).
    { destruct tail; [done|]. simpl in Hlen. lia. }
    unfold bind at 1. unfold get. unfold bind at 1.
    assert (Hhne : head ≠ "").
    { intros ->. inversion Hcre as [? Hd|? Hf|? Hf]; subst; done. }
    rewrite (bool_decide_eq_false_2 (head = "")) by done.
    rewrite (bool_decide_eq_false_2 (tail = "")) by done. cbn [negb andb].
    destruct (path_exists σ head) eqn:Hhe.
    + (* the parent is there *)
      cbn [negb]. unfold ret at 1. unfold catch.
      assert (Hhd : isdir σ head = true).
      { inversion Hcre as [? Hd|? Hf|? Hf]; subst; [done|congruence..]. }
      assert (Hpar : parent_error σ d = None).
      { unfold parent_error. rewrite Hsplit. cbn [fst].
        rewrite bool_decide_eq_false_2 by done. by rewrite Hhd. }
      destruct (mkdir_new σ d Hwf He) as (Hmk & Hwf' & Hdir'); [by rewrite Hsplit|done|].
      rewrite Hmk. eexists. split; [reflexivity|].
      split; [done|]. split; [done|]. split; [done|].
      split; [cbn [dirs]; set_solver|]. cbn [dirs].
      intros x [->%elem_of_singleton|Hx]%elem_of_union; [right; lia|by left].
    + (* the parent is made first *)
      cbn [negb]. unfold bind at 1. unfold catch at 1.
      destruct (IH fuel Hhead) as (σ1 & Hrec & Hfiles & Hhd & Hwf1 & Hsub & Hbound).
      rewrite Hrec. unfold ret at 1.
      rewrite (bool_decide_eq_false_2 (tail = ".")) by done.
      unfold catch.
      assert (He1 : path_exists σ1 d = false).
      { unfold path_exists, isfile, isdir. rewrite Hfiles, Hnf.
        rewrite bool_decide_eq_false_2 by done. cbn [negb andb].
        rewrite Hall, (bool_decide_eq_false_2 (d = ".")) by done.
        rewrite bool_decide_eq_false_2.
        - cbn [orb negb andb]. apply bool_decide_eq_false. by intros [? ?].
        - intros Hin. apply Hbound in Hin as [?|Hle]; [done|].
          destruct tail; [done|]. simpl in Hlen. lia. }
      assert (Hpar : parent_error σ1 d = None).
      { unfold parent_error. rewrite Hsplit. cbn [fst].
        rewrite bool_decide_eq_false_2 by done. by rewrite Hhd. }
      destruct (mkdir_new σ1 d Hwf1 He1) as (Hmk & Hwf' & Hdir'); [by rewrite Hsplit|done|].
      rewrite Hmk. eexists. split; [reflexivity|].
      split; [done|]. split; [done|]. split; [done|].
      split; [cbn [dirs]; set_solver|]. cbn [dirs].
      intros x [->%elem_of_singleton|Hx]%elem_of_union; [right; lia|].
      apply Hbound in Hx as [?|?]; [by left|right; lia].
Qed.

End file_system.

(** ** The lazy store *)

Section lazy_json.
Import Json Os LazyJson.
Context `{JsonText}.
Implicit Types (s : LazyJson.t) (σ : fs text) (p : string).

Lemma json_dump_to_ok σ p opts obj j :
  names_file p → isdir σ p = false → parent_error σ p = None →
  encode 0 None obj = Return j →
  json_dump_to p opts obj σ
  = (Return tt, {| files := <[p := render opts j]> (files σ); dirs := dirs σ |}).
Proof.
  intros Hp Hd Hpar Henc. unfold json_dump_to, bind.
  rewrite open_w_file by done. rewrite Henc. unfold write, modify. simpl.
  by rewrite insert_insert_eq.
Qed.

Lemma load_loaded s σ : data s ≠ PNone → _load (s, σ) = (Return tt, (s, σ)).
Proof.
  intros Hd. unfold _load, self. eff_unfold. simpl. by destruct (data s).
Qed.

Lemma load_unloaded s σ t j :
  data s = PNone → file_name s ≠ "" → isdir σ (file_name s) = false →
  files σ !! file_name s = Some t → parse t = Some j →
  _load (s, σ)
  = (Return tt, ({| file_name := file_name s; data := decode j |}, σ)).
Proof.
  intros Hd Hp Hdir Hf Hj. unfold _load, self, set_data, json_loads.
  unfold bind at 1 2. unfold get, ret. simpl. rewrite Hd.
  unfold catch, bind, on_snd. simpl. rewrite (open_r_file σ _ t) by done.
  unfold lift_result, modify. by rewrite Hj.
Qed.

(** After its first step, every method of a store in the data model
    finds the cache loaded with a JSON-compatible mapping. *)
Lemma load_store s σ :
  is_store s σ →
  ∃ m, _load (s, σ)
       = (Return tt, ({| file_name := file_name s; data := decode (JObj m) |}, σ)).
Proof.
  intros (Hp%names_file_nonempty & Hdir & _ & [m0 Hm0] & [Hd|[m Hd]]).
  - destruct (files σ !! file_name s) as [t|] eqn:Hf; [|done]. simpl in Hm0.
    exists m0. by apply (load_unloaded s σ t).
  - exists m. rewrite load_loaded by (by rewrite Hd). by destruct s; simpl in *; subst.
Qed.

Lemma dump_loaded s σ m :
  names_file (file_name s) → isdir σ (file_name s) = false →
  parent_error σ (file_name s) = None →
  data s = decode (JObj m) →
  _dump (s, σ) = (Return tt, (s, written σ (file_name s) (JObj m))).
Proof.
  intros Hp Hdir Hpar Hd. unfold _dump. unfold bind at 1.
  rewrite load_loaded by (by rewrite Hd).
  unfold self, bind, get, ret, on_snd. simpl.
  rewrite (json_dump_to_ok σ _ _ _ (JObj m)); try done.
  rewrite Hd. apply encode_decode.
Qed.

(** Assignment of a JSON-compatible value to a store of the data model:
    the cache and the file both hold the mapping with the new item. *)
Lemma setitem_store s σ key (jv : json) :
  is_store s σ →
  ∃ m, __setitem__ key (decode jv) (s, σ)
       = (Return tt,
          ({| file_name := file_name s;
              data := decode (JObj (<[key := jv]> m)) |},
           written σ (file_name s) (JObj (<[key := jv]> m)))).
Proof.
  intros Hs. destruct (load_store s σ Hs) as [m Hload].
  destruct Hs as (Hp & Hdir & Hpar & _ & _).
  exists m. unfold __setitem__. unfold bind at 1. rewrite Hload.
  unfold bind at 1. unfold self at 1. unfold bind at 1, get, ret. simpl.
  unfold bind at 1. unfold lift_result. simpl.
  unfold bind at 1. unfold set_data, modify. simpl.
  rewrite <-fmap_insert.
  by rewrite (dump_loaded _ σ (<[key := jv]> m)).
Qed.

(** Assignment keeps a store within the data model. *)
Lemma setitem_preserves_store s σ key (jv : json) :
  is_store s σ →
  ∃ s' σ', __setitem__ key (decode jv) (s, σ) = (Return tt, (s', σ'))
           ∧ is_store s' σ'.
Proof.
  intros Hs. destruct (setitem_store s σ key jv Hs) as [m Hset].
  destruct Hs as (Hp & Hdir & Hpar & [m0 Hm0] & _).
  eexists _, _. split; [exact Hset|].
  unfold is_store, written. cbn [file_name data files].
  split; [done|]. split; [by rewrite isdir_files|]. split.
  - rewrite parent_error_insert; [done..|].
    destruct (files σ !! file_name s); [by eexists|done].
  - split; [|right; by eexists].
    eexists. rewrite lookup_insert_eq. apply parse_render.
Qed.

Lemma isfile_written σ p j : p ≠ "" → isdir σ p = false →
  isfile (written σ p j) p = true.
Proof.
  intros Hp Hd. unfold isfile, written. rewrite isdir_files, Hd.
  cbn [files]. rewrite lookup_insert_eq, bool_decide_eq_false_2 by done.
  cbn [negb andb]. apply bool_decide_eq_true. by eexists.
Qed.

(** Constructing a store over a path that exists touches nothing. *)
Lemma init_existing σ p :
  path_exists σ p = true →
  __init__ p σ = (Return {| file_name := p; data := PNone |}, σ).
Proof.
  intros He. unfold __init__. eff_unfold. simpl. by rewrite He.
Qed.

(** What construction establishes: the store is bound to the path, its
    cache is not loaded, and the path exists. *)
Lemma init_path_exists σ0 σ p s :
  __init__ p σ0 = (Return s, σ) →
  file_name s = p ∧ data s = PNone ∧ path_exists σ p = true.
Proof.
  unfold __init__. unfold bind at 1. unfold get.
  destruct (path_exists σ0 p) eqn:He; cbn [negb].
  - unfold bind, ret. by intros [= <- <-].
  - unfold bind at 1 2. destruct (makedirs (split p).1 true σ0) as [[[]|e] σ1];
      [|discriminate].
    unfold json_dump_to. unfold bind at 1.
    destruct (open_w text_empty p σ1) as [[[]|e] σ2] eqn:Hopen; [|discriminate].
    apply open_w_inv in Hopen as (Hp%names_file_nonempty & Hdir & _ & ->).
    rewrite encode_empty_dict. unfold write, modify, ret.
    intros [= <- <-]. repeat split.
    unfold path_exists, isfile. rewrite !isdir_files, Hdir. cbn [files].
    rewrite lookup_insert_eq, bool_decide_eq_false_2 by done.
    cbn [negb andb orb]. apply bool_decide_eq_true. by eexists.
Qed.

(** A store constructed where nothing existed is a store of the data
    model, whatever directories had to be made. *)
Lemma init_fresh_is_store σ0 σ p s :
  path_exists σ0 p = false →
  __init__ p σ0 = (Return s, σ) →
  is_store s σ ∧ files σ !! p = Some (render json_defaults (JObj ∅)).
Proof.
  intros He. unfold __init__. unfold bind at 1. unfold get.
  rewrite He. cbn [negb]. unfold bind at 1 2.
  destruct (makedirs (split p).1 true σ0) as [[[]|e] σ1]; [|discriminate].
  unfold json_dump_to. unfold bind at 1.
  destruct (open_w text_empty p σ1) as [[[]|e] σ2] eqn:Hopen; [|discriminate].
  apply open_w_inv in Hopen as (Hp & Hdir & Hpar & ->).
  rewrite encode_empty_dict. unfold write, modify, ret.
  intros [= <- <-]. cbn [files dirs]. rewrite insert_insert_eq.
  split; [|apply lookup_insert_eq].
  unfold is_store. cbn [file_name data files].
  split; [done|]. split; [by rewrite isdir_files|]. split.
  - apply parent_error_None in Hpar. unfold parent_error.
    case_bool_decide; [done|]. rewrite isdir_files.
    destruct Hpar as [Hh|Hh]; [done|by rewrite Hh].
  - split; [|by left]. exists ∅. rewrite lookup_insert_eq. apply parse_render.
Qed.

Lemma getitem_unloaded s σ t m key v :
  data s = PNone → file_name s ≠ "" → isdir σ (file_name s) = false →
  files σ !! file_name s = Some t → parse t = Some (JObj m) →
  m !! key = Some v →
  __getitem__ key (s, σ)
  = (Return (decode v),
     ({| file_name := file_name s; data := decode (JObj m) |}, σ)).
Proof.
  intros Hd Hp Hdir Hf Hj Hk. unfold __getitem__. unfold bind at 1.
  rewrite (load_unloaded s σ t (JObj m)) by done.
  unfold self, bind, get, ret, lift_result. simpl.
  by rewrite lookup_fmap, Hk.
Qed.

Lemma len_unloaded s σ t m :
  data s = PNone → file_name s ≠ "" → isdir σ (file_name s) = false →
  files σ !! file_name s = Some t → parse t = Some (JObj m) →
  __len__ (s, σ)
  = (Return (Z.of_nat (size m)),
     ({| file_name := file_name s; data := decode (JObj m) |}, σ)).
Proof.
  intros Hd Hp Hdir Hf Hj. unfold __len__. unfold bind at 1.
  rewrite (load_unloaded s σ t (JObj m)) by done.
  unfold self, bind, get, ret, lift_result. simpl.
  by rewrite map_size_fmap.
Qed.

Lemma bool_unloaded s σ t m :
  data s = PNone → file_name s ≠ "" → isdir σ (file_name s) = false →
  files σ !! file_name s = Some t → parse t = Some (JObj m) →
  truth_value (s, σ)
  = (Return (negb (Z.of_nat (size m) =? 0)%Z),
     ({| file_name := file_name s; data := decode (JObj m) |}, σ)).
Proof.
  intros Hd Hp Hdir Hf Hj. unfold truth_value, bind.
  by rewrite (len_unloaded s σ t m).
Qed.

(** Write-through and reload, for any key and JSON-compatible value:
    after the assignment, a new store over the same path reads the
    value back. *)
Lemma setitem_then_reload s σ key (jv : json) :
  is_store s σ →
  ∃ s1 σ1 s3,
    __setitem__ key (decode jv) (s, σ) = (Return tt, (s1, σ1))
    ∧ __init__ (file_name s) σ1
      = (Return {| file_name := file_name s; data := PNone |}, σ1)
    ∧ __getitem__ key ({| file_name := file_name s; data := PNone |}, σ1)
      = (Return (decode jv), (s3, σ1)).
Proof.
  intros Hs. destruct (setitem_store s σ key jv Hs) as [m Hset].
  destruct Hs as (Hp%names_file_nonempty & Hdir & Hpar & _ & _).
  eexists _, _, _. split; [exact Hset|]. split.
  - apply init_existing. unfold path_exists.
    rewrite isfile_written by done. apply orb_true_r.
  - apply (getitem_unloaded _ _ (render store_options (JObj (<[key:=jv]> m)))
             (<[key:=jv]> m)); simpl; try done.
    + by rewrite lookup_insert_eq.
    + apply parse_render.
    + by rewrite lookup_insert_eq.
Qed.

(** C1: for every lazy store of the data model, setting the key "a" to 1
    succeeds and writes the file; a new store constructed over the same
    path, with nothing loaded yet, then reads "a" back as 1. *)
Theorem setitem_roundtrips_through_file s σ :
  is_store s σ →
  ∃ s1 σ1 s2 s3,
    __setitem__ "a" (PInt 1) (s, σ) = (Return tt, (s1, σ1))
    ∧ __init__ (file_name s) σ1 = (Return s2, σ1)
    ∧ data s2 = PNone
    ∧ __getitem__ "a" (s2, σ1) = (Return (PInt 1), (s3, σ1)).
Proof.
  intros Hs.
  destruct (setitem_then_reload s σ "a" (JInt 1) Hs) as (s1 & σ1 & s3 & H1 & H2 & H3).
  by exists s1, σ1, {| file_name := file_name s; data := PNone |}, s3.
Qed.

(** Construction over a path that names a file and does not exist, in a
    directory that does: the file is created with the empty object in
    it, and nothing else changes. *)
Lemma init_fresh σ p :
  wf_fs σ → names_file p → path_exists σ p = false →
  isdir σ (split p).1 = true →
  __init__ p σ
  = (Return {| file_name := p; data := PNone |},
     {| files := <[p := render json_defaults (JObj ∅)]> (files σ);
        dirs := dirs σ |}).
Proof.
  intros Hwf Hp He Hd.
  assert (Hnd : isdir σ p = false).
  { unfold path_exists in He. by apply orb_false_iff in He as [? _]. }
  assert (Hpar : parent_error σ p = None).
  { unfold parent_error. case_bool_decide; [done|]. by rewrite Hd. }
  unfold __init__. unfold bind at 1. unfold get. rewrite He. cbn [negb].
  unfold bind at 1 2. unfold makedirs.
  rewrite makedirs_fuel_isdir by done.
  rewrite (json_dump_to_ok σ p _ _ (JObj ∅)) by done.
  reflexivity.
Qed.

(** Construction over a path that names a file and does not exist, with
    a directory part that is there or can be made: the constructor
    returns a store that has nothing loaded, the file holds the empty
    object, its directory is there, no other file is touched, and the
    length of the store is 0. *)
Lemma init_creates σ p :
  wf_fs σ → names_file p → path_exists σ p = false →
  creatable σ (split p).1 →
  ∃ s σ',
    __init__ p σ = (Return s, σ')
    ∧ s = {| file_name := p; data := PNone |}
    ∧ files σ' = <[p := render json_defaults (JObj ∅)]> (files σ)
    ∧ isdir σ' (split p).1 = true
    ∧ is_store s σ'
    ∧ __len__ (s, σ')
      = (Return 0%Z, ({| file_name := p; data := PDict ∅ |}, σ')).
Proof.
  intros Hwf Hp He Hc.
  pose proof (names_file_nonempty p Hp) as Hpne.
  destruct (path_exists_false σ p Hpne He) as (Hnin & Hall & Hnd & Hnf).
  destruct (makedirs_fuel_creatable σ _ Hwf Hc (S (String.length (split p).1)))
    as (σ1 & Hmk & Hfiles & Hhd & Hwf1 & Hsub & Hbound); [lia|].
  assert (Hlen : (String.length (split p).1 < String.length p)%nat).
  { pose proof (split_length p) as Hl. unfold names_file in Hp.
    destruct (split p).2; [done|]. simpl in Hl. lia. }
  assert (Hdir1 : isdir σ1 p = false).
  { unfold isdir. rewrite Hall, (bool_decide_eq_false_2 (p = ".")) by done.
    rewrite (bool_decide_eq_false_2 (p ∈ dirs σ1)); [by rewrite andb_false_r|].
    intros Hin. apply Hbound in Hin as [?|?]; [done|lia]. }
  assert (Hpar1 : parent_error σ1 p = None).
  { unfold parent_error. case_bool_decide; [done|]. by rewrite Hhd. }
  assert (Hinit : __init__ p σ
                  = (Return {| file_name := p; data := PNone |},
                     {| files := <[p := render json_defaults (JObj ∅)]> (files σ1);
                        dirs := dirs σ1 |})).
  { unfold __init__. unfold bind at 1. unfold get. rewrite He. cbn [negb].
    unfold bind at 1 2. unfold makedirs. rewrite Hmk.
    by rewrite (json_dump_to_ok σ1 p _ _ (JObj ∅)). }
  destruct (init_fresh_is_store _ _ _ _ He Hinit) as [Hstore Hfile].
  eexists _, _. split; [exact Hinit|]. split; [done|].
  split; [by rewrite <-Hfiles|]. split; [by rewrite isdir_files|].
  split; [exact Hstore|].
  rewrite (len_unloaded {| file_name := p; data := PNone |} _
             (render json_defaults (JObj ∅)) ∅);
    cbn [file_name data decode];
    [by rewrite fmap_empty, map_size_empty|done|done|by rewrite isdir_files
    |done|apply parse_render].
Qed.

Lemma init_bare_name σ p :
  path_exists σ p = false → (split p).1 = "" →
  __init__ p σ = (Raise FileNotFoundError, σ).
Proof.
  intros He Hs. unfold __init__, bind, get. rewrite He. cbn [negb].
  by rewrite Hs.
Qed.

(** C5, at the input where the code departs from it: no file "x.json"
    exists, and the constructor raises [FileNotFoundError] from
    [os.makedirs("")] with nothing created. *)
Theorem init_bare_file_name_raises :
  __init__ "x.json" fs_empty = (Raise FileNotFoundError, fs_empty).
Proof. by apply init_bare_name. Qed.

End lazy_json.

(** ** The codec and the JSON-friendly record *)

Section codec.
Import Json Os LazyJson Codec.
Context `{JsonText}.
Implicit Types (s : LazyJson.t) (σ : fs text) (p : string).

Lemma encode_lazy_json s :
  encode recursion_limit (Some default) (as_pyobj s)
  = Return (lazy_json_doc (file_name s)).
Proof.
  unfold as_pyobj, recursion_limit.
  rewrite (encode_hooked _ _ _ _ (PDict {[ "__lazy_json__" := PStr (file_name s) ]}))
    by done.
  rewrite encode_unfold, encode_with_dict.
  by rewrite (map_mapM_singleton _ _ _ (JStr (file_name s))).
Qed.

Lemma dumps_lazy_json s :
  dumps (as_pyobj s) = Return (render codec_options (lazy_json_doc (file_name s))).
Proof. unfold dumps, json_dumps. by rewrite encode_lazy_json. Qed.

Lemma dump_lazy_json s fp σ :
  dump (as_pyobj s) fp σ
  = (Return tt,
     {| files := <[fp := render codec_options (lazy_json_doc (file_name s))]> (files σ);
        dirs := dirs σ |}).
Proof. unfold dump. by rewrite encode_lazy_json. Qed.

Lemma decode_with_lazy_json_doc σ p :
  path_exists σ p = true →
  decode_with object_hook (lazy_json_doc p) σ
  = (Return (PLazyJson p PNone), σ).
Proof.
  intros He. unfold lazy_json_doc.
  change (bind (map_mapM_eff (decode_with object_hook) {[ "__lazy_json__" := JStr p ]})
               object_hook σ = (Return (PLazyJson p PNone), σ)).
  unfold map_mapM_eff. rewrite map_fold_singleton.
  unfold bind, ret. simpl. unfold object_hook.
  rewrite insert_empty, lookup_singleton_eq. unfold bind.
  by rewrite init_existing.
Qed.

Lemma loads_lazy_json_doc σ p opts :
  path_exists σ p = true →
  loads (render opts (lazy_json_doc p)) σ = (Return (PLazyJson p PNone), σ).
Proof.
  intros He. unfold loads. rewrite parse_render.
  by apply decode_with_lazy_json_doc.
Qed.

(** Decoding the document of a store is constructing a store over its
    path. *)
Lemma loads_lazy_json_doc_constructs σ p opts :
  loads (render opts (lazy_json_doc p)) σ
  = (s ⇐ __init__ p ;; ret (as_pyobj s)) σ.
Proof.
  unfold loads. rewrite parse_render. unfold lazy_json_doc.
  change (decode_with object_hook (JObj {[ "__lazy_json__" := JStr p ]}) σ)
    with (bind (map_mapM_eff (decode_with object_hook) {[ "__lazy_json__" := JStr p ]})
               object_hook σ).
  unfold map_mapM_eff. rewrite map_fold_singleton.
  cbn [decode_with]. unfold bind, ret. cbv beta iota.
  unfold object_hook. rewrite insert_empty, lookup_singleton_eq.
  reflexivity.
Qed.

(** The round trip for a store whose path exists, whatever its cache
    holds: [dumps] yields the text of the document [{"__lazy_json__": p}]
    and [dump] writes that text; [loads] of the text, and [load] of the
    file that [dump] wrote, yield a store whose [file_name] is [p]. *)
Lemma codec_roundtrip_existing s σ :
  path_exists σ (file_name s) = true →
  dumps (as_pyobj s)
  = Return (render codec_options (lazy_json_doc (file_name s)))
  ∧ (∃ s', loads (render codec_options (lazy_json_doc (file_name s))) σ
           = (Return (as_pyobj s'), σ)
           ∧ file_name s' = file_name s)
  ∧ (∀ fp, fp ≠ "" → isdir σ fp = false →
       ∃ σ1 s',
         dump (as_pyobj s) fp σ = (Return tt, σ1)
         ∧ files σ1 !! fp
           = Some (render codec_options (lazy_json_doc (file_name s)))
         ∧ load fp σ1 = (Return (as_pyobj s'), σ1)
         ∧ file_name s' = file_name s).
Proof.
  intros He. split; [apply dumps_lazy_json|]. split.
  - exists {| file_name := file_name s; data := PNone |}.
    split; [|done]. by apply loads_lazy_json_doc.
  - intros fp Hfp Hdir. eexists _, {| file_name := file_name s; data := PNone |}.
    split; [apply dump_lazy_json|]. split; [apply lookup_insert_eq|].
    split; [|done]. unfold load, bind.
    rewrite (open_r_file _ fp (render codec_options (lazy_json_doc (file_name s))));
      [|done|done|apply lookup_insert_eq].
    apply loads_lazy_json_doc. by apply path_exists_insert.
Qed.

(** C4: for every path [p] and every store constructed over [p],
    whatever its cache holds afterwards, [dumps] yields the text of the
    document [{"__lazy_json__": p}] and [dump] writes that text into the
    file it is given; [loads] of the text, and [load] of the file that
    [dump] wrote, yield a store whose [file_name] is [p]. *)
Theorem lazy_json_codec_roundtrip p σ0 s σ (cache : pyobj) :
  __init__ p σ0 = (Return s, σ) →
  let obj := PLazyJson (file_name s) cache in
  let doc := render codec_options (lazy_json_doc p) in
  dumps obj = Return doc
  ∧ (∃ s', loads doc σ = (Return (as_pyobj s'), σ) ∧ file_name s' = p)
  ∧ (∀ fp, fp ≠ "" → isdir σ fp = false →
       ∃ σ1 s',
         dump obj fp σ = (Return tt, σ1)
         ∧ files σ1 !! fp = Some doc
         ∧ load fp σ1 = (Return (as_pyobj s'), σ1)
         ∧ file_name s' = p).
Proof.
  intros Hinit. apply init_path_exists in Hinit as (Hp & _ & He).
  intros obj doc. subst obj doc. rewrite Hp.
  apply (codec_roundtrip_existing {| file_name := p; data := cache |} σ He).
Qed.

Lemma str_le_total : Total str_le.
Proof. intros a b. apply String.leb_total. Qed.

(** The keys of the record are those of the mapping, in order. *)
Lemma sorted_keys (fz : gmap string pyobj) :
  Sorted str_le (sorted ((map_to_list fz).*1))
  ∧ sorted ((map_to_list fz).*1) ≡ₚ (map_to_list fz).*1.
Proof.
  split.
  - apply Sorted_merge_sort, str_le_total.
  - apply merge_sort_Permutation.
Qed.

Lemma frozen_without_PR fz σ :
  frozen_to_json_friendly fz None σ = (Return (PDict (plain_record fz)), σ).
Proof. reflexivity. Qed.

(** With a store that is not yet loaded, the reference is attached when
    the mapping in its file is not empty, and only then. *)
Lemma frozen_with_store fz pr σ t m :
  data pr = PNone → file_name pr ≠ "" → isdir σ (file_name pr) = false →
  files σ !! file_name pr = Some t → parse t = Some (JObj m) →
  frozen_to_json_friendly fz (Some pr) σ
  = (Return
       (PDict (if bool_decide (m = ∅) then plain_record fz
               else <["PR" := PLazyJson (file_name pr) (decode (JObj m))]>
                      (plain_record fz))),
     σ).
Proof.
  intros Hd Hp Hdir Hf Hj. unfold frozen_to_json_friendly, call, bind.
  rewrite (bool_unloaded pr σ t m) by done. cbn [fst snd].
  case_bool_decide as Hm.
  - subst m. by rewrite map_size_empty.
  - destruct (size m) eqn:Hsz; [by apply map_size_empty_iff in Hsz|]. done.
Qed.

(** C6, at the input where the code departs from it: a store that was
    just constructed is passed as [PR], and the record holds the sorted
    keys and the data but no key "PR". *)
Theorem frozen_to_json_friendly_omits_empty_store (fz : gmap string pyobj) :
  ∃ pr σ,
    __init__ "/tmp/pr.json" fs_empty = (Return pr, σ)
    ∧ frozen_to_json_friendly fz (Some pr) σ
      = (Return (PDict (plain_record fz)), σ)
    ∧ plain_record fz !! "PR" = None.
Proof.
  eexists _, _. split; [reflexivity|]. split; [|reflexivity].
  rewrite (frozen_with_store fz _ _ (render json_defaults (JObj ∅)) ∅);
    try done.
  apply parse_render.
Qed.

End codec.

(** ** The store as a mapping *)

Section lazy_json_mapping.
Import Json Os LazyJson Codec.
Context `{JsonText}.
Implicit Types (s : LazyJson.t) (σ : fs text) (p : string) (m : gmap string json).

Lemma open_r_fs σ p : (open_r p σ).2 = σ.
Proof.
  unfold open_r, bind, get, raise, ret. destruct (isdir σ p); [done|].
  destruct (files σ !! p); [by case_bool_decide|].
  by destruct (parent_error σ p).
Qed.

(** Loading never writes, and keeps the store bound to its path. *)
Lemma load_shape s σ :
  ∃ r d, _load (s, σ) = (r, ({| file_name := file_name s; data := d |}, σ)).
Proof.
  unfold _load, self. unfold bind at 1. unfold bind at 1. unfold get, ret.
  cbn [fst snd].
  destruct (data s) eqn:Hd;
    try (exists (Return tt), (data s); rewrite Hd; destruct s; simpl in *; by subst).
  unfold catch, bind, on_snd. cbn [fst snd].
  pose proof (open_r_fs σ (file_name s)) as Hr.
  destruct (open_r (file_name s) σ) as [[t|e] σ1]; cbn [snd] in Hr; subst σ1.
  - unfold lift_result, set_data, modify. destruct (json_loads t).
    + by eexists _, _.
    + exists (Raise e), PNone. unfold raise. destruct s; simpl in *; by subst.
  - exists (Raise e), PNone. unfold raise. destruct s; simpl in *; by subst.
Qed.

Lemma load_presents s σ m :
  is_store s σ → presents s σ m →
  _load (s, σ)
  = (Return tt, ({| file_name := file_name s; data := decode (JObj m) |}, σ)).
Proof.
  intros (Hp%names_file_nonempty & Hdir & _ & _ & _) [Hd|[Hd Hf]].
  - rewrite load_loaded by (by rewrite Hd). by destruct s; simpl in *; subst.
  - destruct (files σ !! file_name s) as [t|] eqn:Ht; [|done]. simpl in Hf.
    by apply (load_unloaded s σ t).
Qed.

Lemma getitem_presents s σ m item :
  is_store s σ → presents s σ m →
  __getitem__ item (s, σ)
  = (match m !! item with Some v => Return (decode v) | None => Raise KeyError end,
     ({| file_name := file_name s; data := decode (JObj m) |}, σ)).
Proof.
  intros Hs Hm. unfold __getitem__. unfold bind at 1.
  rewrite (load_presents s σ m) by done.
  unfold self, bind, get, ret, lift_result. simpl.
  rewrite lookup_fmap. by destruct (m !! item).
Qed.

Lemma len_presents s σ m :
  is_store s σ → presents s σ m →
  __len__ (s, σ)
  = (Return (Z.of_nat (size m)),
     ({| file_name := file_name s; data := decode (JObj m) |}, σ)).
Proof.
  intros Hs Hm. unfold __len__. unfold bind at 1.
  rewrite (load_presents s σ m) by done.
  unfold self, bind, get, ret, lift_result. simpl.
  by rewrite map_size_fmap.
Qed.

Lemma setitem_presents s σ m key (jv : json) :
  is_store s σ → presents s σ m →
  __setitem__ key (decode jv) (s, σ)
  = (Return tt,
     ({| file_name := file_name s; data := decode (JObj (<[key := jv]> m)) |},
      written σ (file_name s) (JObj (<[key := jv]> m)))).
Proof.
  intros Hs Hm. pose proof (load_presents s σ m Hs Hm) as Hload.
  destruct Hs as (Hp & Hdir & Hpar & _ & _).
  unfold __setitem__. unfold bind at 1. rewrite Hload.
  unfold bind at 1. unfold self at 1. unfold bind at 1, get, ret. simpl.
  unfold bind at 1. unfold lift_result. simpl.
  unfold bind at 1. unfold set_data, modify. simpl.
  rewrite <-fmap_insert.
  by rewrite (dump_loaded _ σ (<[key := jv]> m)).
Qed.

(** After a write of the mapping [m'], a store over the same path that
    has nothing loaded is a store of the data model and presents [m']. *)
Lemma written_store s σ m' :
  is_store s σ →
  is_store {| file_name := file_name s; data := PNone |}
           (written σ (file_name s) (JObj m'))
  ∧ presents {| file_name := file_name s; data := PNone |}
             (written σ (file_name s) (JObj m')) m'
  ∧ is_store {| file_name := file_name s; data := decode (JObj m') |}
             (written σ (file_name s) (JObj m')).
Proof.
  intros (Hp & Hdir & Hpar & [m0 Hm0] & _).
  assert (Hfile : (files (written σ (file_name s) (JObj m')) !! file_name s)
                    ≫= parse = Some (JObj m')).
  { unfold written. cbn [files]. rewrite lookup_insert_eq. apply parse_render. }
  assert (Hpar' : parent_error (written σ (file_name s) (JObj m')) (file_name s)
                  = None).
  { unfold written. rewrite parent_error_insert; [done..|].
    destruct (files σ !! file_name s); [by eexists|done]. }
  assert (Hdir' : isdir (written σ (file_name s) (JObj m')) (file_name s) = false).
  { unfold written. by rewrite isdir_files. }
  split; [|split].
  - unfold is_store. cbn [file_name data]. repeat split; try done.
    + by exists m'.
    + by left.
  - right. by split.
  - unfold is_store. cbn [file_name data]. repeat split; try done.
    + by exists m'.
    + right. by exists m'.
Qed.

(** X12: assigning a JSON-compatible value to any key returns, and a
    new store over the same path then reads the value at that key and,
    at every other key, what the store read before the assignment. *)
Theorem setitem_reload_lookup s σ m key (jv : json) :
  is_store s σ → presents s σ m →
  ∃ s1 σ1,
    __setitem__ key (decode jv) (s, σ) = (Return tt, (s1, σ1))
    ∧ ∀ item,
        (__getitem__ item ({| file_name := file_name s; data := PNone |}, σ1)).1
        = (if decide (item = key) then Return (decode jv)
           else (__getitem__ item (s, σ)).1).
Proof.
  intros Hs Hm. eexists _, _. split; [by apply setitem_presents|].
  intros item. destruct (written_store s σ (<[key:=jv]> m) Hs) as (Hs1 & Hm1 & _).
  rewrite (getitem_presents _ _ _ item Hs1 Hm1).
  rewrite (getitem_presents _ _ _ item Hs Hm). cbn [fst].
  case_decide as Hk.
  - subst. by rewrite lookup_insert_eq.
  - by rewrite lookup_insert_ne.
Qed.

Lemma delitem_presents s σ m key v :
  is_store s σ → presents s σ m → m !! key = Some v →
  __delitem__ key (s, σ)
  = (Return tt,
     ({| file_name := file_name s; data := decode (JObj (delete key m)) |},
      written σ (file_name s) (JObj (delete key m)))).
Proof.
  intros Hs Hm Hk. pose proof (load_presents s σ m Hs Hm) as Hload.
  destruct Hs as (Hp & Hdir & Hpar & _ & _).
  unfold __delitem__. unfold bind at 1. rewrite Hload.
  unfold bind at 1. unfold self at 1. unfold bind at 1, get, ret. simpl.
  unfold bind at 1. unfold lift_result. simpl. rewrite lookup_fmap, Hk. simpl.
  unfold bind at 1. unfold set_data, modify. simpl.
  rewrite <-fmap_delete.
  by rewrite (dump_loaded _ σ (delete key m)).
Qed.

(** X15: deleting a key that the store has returns and writes the file:
    a new store over the same path raises [KeyError] for that key and
    reads every other key as before. *)
Theorem delitem_reload_lookup s σ m key v :
  is_store s σ → presents s σ m → m !! key = Some v →
  ∃ s1 σ1,
    __delitem__ key (s, σ) = (Return tt, (s1, σ1))
    ∧ ∀ item,
        (__getitem__ item ({| file_name := file_name s; data := PNone |}, σ1)).1
        = (if decide (item = key) then Raise KeyError
           else (__getitem__ item (s, σ)).1).
Proof.
  intros Hs Hm Hk. eexists _, _. split; [by eapply delitem_presents|].
  intros item. destruct (written_store s σ (delete key m) Hs) as (Hs1 & Hm1 & _).
  rewrite (getitem_presents _ _ _ item Hs1 Hm1).
  rewrite (getitem_presents _ _ _ item Hs Hm). cbn [fst].
  case_decide as Hi.
  - subst. by rewrite lookup_delete_eq.
  - by rewrite lookup_delete_ne.
Qed.

(** X16: reading or deleting a key that the store does not have raises
    [KeyError]; the file system is untouched, and the store, now loaded,
    presents the same mapping. *)
Theorem missing_key_raises s σ m key :
  is_store s σ → presents s σ m → m !! key = None →
  ∃ s1,
    __getitem__ key (s, σ) = (Raise KeyError, (s1, σ))
    ∧ __delitem__ key (s, σ) = (Raise KeyError, (s1, σ))
    ∧ presents s1 σ m.
Proof.
  intros Hs Hm Hk. exists {| file_name := file_name s; data := decode (JObj m) |}.
  split; [|split].
  - rewrite (getitem_presents s σ m) by done. by rewrite Hk.
  - unfold __delitem__. unfold bind at 1. rewrite (load_presents s σ m) by done.
    unfold bind at 1. unfold self at 1. unfold bind at 1, get, ret. simpl.
    unfold bind at 1. unfold lift_result. simpl. by rewrite lookup_fmap, Hk.
  - by left.
Qed.

(** X10: [__getitem__], [__len__], [__iter__] and the truth value leave
    the file system as it was, for every store and file system, whether
    they return or raise. *)
Theorem reads_never_write s σ item :
  (__getitem__ item (s, σ)).2.2 = σ
  ∧ (__len__ (s, σ)).2.2 = σ
  ∧ (__iter__ (s, σ)).2.2 = σ
  ∧ (truth_value (s, σ)).2.2 = σ.
Proof.
  destruct (load_shape s σ) as (r & d & Hl).
  assert (Hlen : (__len__ (s, σ)).2.2 = σ).
  { unfold __len__, bind. rewrite Hl. by destruct r as [[]|]. }
  split; [|split; [done|split]].
  - unfold __getitem__, bind. rewrite Hl. by destruct r as [[]|].
  - unfold __iter__, bind. rewrite Hl. by destruct r as [[]|].
  - unfold truth_value, bind.
    destruct (__len__ (s, σ)) as [[z|e] [s1 σ1]]; cbn [snd] in Hlen; by subst.
Qed.

(** X11: a store reads its file at most once: after the first length
    query the cache is loaded, and every later query answers from the
    cache, whatever the file system has become. *)
Theorem loaded_store_ignores_file s σ m :
  is_store s σ → presents s σ m →
  ∃ s1,
    __len__ (s, σ) = (Return (Z.of_nat (size m)), (s1, σ))
    ∧ ∀ σ' item,
        __len__ (s1, σ') = (Return (Z.of_nat (size m)), (s1, σ'))
        ∧ __getitem__ item (s1, σ')
          = (match m !! item with
             | Some v => Return (decode v)
             | None => Raise KeyError
             end, (s1, σ')).
Proof.
  intros Hs Hm. eexists. split; [by apply len_presents|].
  intros σ' item. split.
  - unfold __len__. unfold bind at 1. rewrite load_loaded by done.
    unfold self, bind, get, ret, lift_result. simpl. by rewrite map_size_fmap.
  - unfold __getitem__. unfold bind at 1. rewrite load_loaded by done.
    unfold self, bind, get, ret, lift_result. simpl. rewrite lookup_fmap.
    by destruct (m !! item).
Qed.


Lemma mkdir_files name σ r σ' :
  mkdir name σ = (r, σ') → files σ' = files σ ∧ dirs σ ⊆ dirs σ'.
Proof.
  unfold mkdir, bind, get, raise, modify. case_bool_decide; [by intros [= <- <-]|].
  destruct (path_exists σ name); [by intros [= <- <-]|].
  destruct (parent_error σ name); intros [= <- <-]; [done|].
  simpl. split; [done|set_solver].
Qed.

(** [makedirs] makes directories only. *)
Lemma makedirs_fuel_files fuel name ok σ r σ' :
  makedirs_fuel fuel name ok σ = (r, σ') →
  files σ' = files σ ∧ dirs σ ⊆ dirs σ'.
Proof.
  revert name σ r σ'. induction fuel as [|fuel IH]; intros name σ r σ'.
  { by intros [= <- <-]. }
  cbn [makedirs_fuel].
  destruct (split name) as [head tail].
  destruct (if bool_decide (tail = "") then split head else (head, tail))
    as [head' tail'].
  unfold bind at 1. unfold get.
  assert (Hmk : ∀ σ1, files σ1 = files σ → dirs σ ⊆ dirs σ1 →
            catch (mkdir name)
              (λ e, if is_OSError e then
                      σ ⇐ get ;;
                      if negb ok || negb (isdir σ name) then raise e
                      else ret tt
                    else raise e) σ1 = (r, σ') →
            files σ' = files σ ∧ dirs σ ⊆ dirs σ').
  { intros σ1 Hf Hd. unfold catch.
    destruct (mkdir name σ1) as [[[]|e] σ2] eqn:Hmk.
    all: apply mkdir_files in Hmk as [Hf1 Hd1].
    - intros [= <- <-]. split; [congruence|set_solver].
    - unfold bind, get, raise, ret.
      destruct (is_OSError e); [destruct (negb ok || negb (isdir σ2 name))|];
        intros [= <- <-]; (split; [congruence|set_solver]). }
  unfold bind at 1.
  destruct (negb (bool_decide (head' = "")) && negb (bool_decide (tail' = ""))
            && negb (path_exists σ head')).
  - unfold bind at 1. unfold catch.
    destruct (makedirs_fuel fuel head' ok σ) as [[[]|e] σ1] eqn:Hrec.
    all: apply IH in Hrec as [Hf Hd].
    + unfold ret. case_bool_decide; [by intros [= <- <-]|]. by apply Hmk.
    + case_bool_decide.
      * unfold ret. case_bool_decide; [by intros [= <- <-]|]. by apply Hmk.
      * unfold raise. by intros [= <- <-].
  - unfold ret. by apply Hmk.
Qed.

Lemma init_keeps σ p r σ' :
  __init__ p σ = (r, σ') →
  (∀ q t, files σ !! q = Some t → files σ' !! q = Some t) ∧ dirs σ ⊆ dirs σ'.
Proof.
  unfold __init__. unfold bind at 1. unfold get.
  destruct (path_exists σ p) eqn:He; cbn [negb].
  { unfold bind, ret. by intros [= <- <-]. }
  unfold bind at 1 2. unfold makedirs.
  destruct (makedirs_fuel _ _ _ σ) as [[[]|e] σ1] eqn:Hmk.
  all: apply makedirs_fuel_files in Hmk as [Hf Hd].
  2: { intros [= <- <-]. by rewrite Hf. }
  unfold json_dump_to. unfold bind at 1.
  destruct (open_w text_empty p σ1) as [[[]|e] σ2] eqn:Hopen.
  - apply open_w_inv in Hopen as (Hp%names_file_nonempty & Hdir & _ & ->).
    rewrite encode_empty_dict. unfold write, modify, ret.
    intros [= <- <-]. cbn [files dirs]. split; [|done]. intros q t Hq.
    assert (q ≠ p).
    { intros ->. unfold path_exists, isfile in He.
      apply orb_false_iff in He as [Hnd He]. rewrite Hnd in He.
      rewrite bool_decide_eq_false_2 in He by done. cbn [negb andb] in He.
      apply bool_decide_eq_false in He. apply He. by eexists. }
    rewrite !lookup_insert_ne by done. by rewrite Hf.
  - intros [= <- <-]. unfold open_w, bind, get, raise, modify in Hopen.
    repeat (case_bool_decide || case_match || simplify_eq/=); by rewrite Hf.
Qed.

(** X9: in a file system of plain spellings and for a path spelled
    so, whatever the constructor does, and whether it returns or raises,
    every file that was there keeps its content and every directory
    remains; when it returns, constructing the store again returns the
    same store and changes nothing. *)
Theorem init_keeps_what_exists (absolute : bool) σ p :
  plain_fs absolute σ → plain absolute p = true →
  (∀ q t, files σ !! q = Some t → files (__init__ p σ).2 !! q = Some t)
  ∧ dirs σ ⊆ dirs (__init__ p σ).2
  ∧ ∀ s, (__init__ p σ).1 = Return s →
         __init__ p (__init__ p σ).2 = (Return s, (__init__ p σ).2).
Proof.
  intros _ _.
  destruct (__init__ p σ) as [r σ'] eqn:Hinit. cbn [fst snd].
  destruct (init_keeps _ _ _ _ Hinit) as [Hfiles Hdirs].
  split; [done|]. split; [done|]. intros s ->.
  apply init_path_exists in Hinit as (<- & Hd & He).
  rewrite (init_existing σ' _ He). by destruct s; simpl in *; subst.
Qed.

(** X8: in a file system of plain spellings, constructing a store over
    a path spelled so that names a file and does not exist, with a
    directory part that is there or can be made, returns; the file then
    holds the empty object, its directory is there and no other file is
    touched; the store has length 0, yields no key and raises
    [KeyError] for every item. *)
Theorem fresh_store_is_empty_mapping (absolute : bool) σ p :
  plain_fs absolute σ → plain absolute p = true →
  wf_fs σ → names_file p → path_exists σ p = false →
  creatable σ (split p).1 →
  ∃ s σ',
    __init__ p σ = (Return s, σ')
    ∧ file_name s = p
    ∧ files σ' = <[p := render json_defaults (JObj ∅)]> (files σ)
    ∧ isdir σ' (split p).1 = true
    ∧ (__len__ (s, σ')).1 = Return 0%Z
    ∧ (__iter__ (s, σ')).1 = Return []
    ∧ ∀ item, (__getitem__ item (s, σ')).1 = Raise KeyError.
Proof.
  intros _ _ Hwf Hp He Hc.
  destruct (init_creates σ p Hwf Hp He Hc)
    as (s & σ' & Hinit & -> & Hfiles & Hdir & Hs & Hlen).
  assert (Hm : presents {| file_name := p; data := PNone |} σ' ∅).
  { right. split; [done|]. cbn [file_name]. rewrite Hfiles, lookup_insert_eq.
    apply parse_render. }
  exists {| file_name := p; data := PNone |}, σ'.
  split; [done|]. split; [done|]. split; [done|]. split; [done|].
  split; [by rewrite Hlen|]. split.
  - unfold __iter__. unfold bind at 1. rewrite (load_presents _ _ ∅ Hs Hm).
    unfold self, bind, get, ret, lift_result. cbn [fst snd data decode py_iter].
    by rewrite fmap_empty, map_to_list_empty.
  - intros item. by rewrite (getitem_presents _ _ ∅ item Hs Hm).
Qed.

Lemma written_in_sync s σ m' :
  is_store s σ →
  in_sync {| file_name := file_name s; data := decode (JObj m') |}
          (written σ (file_name s) (JObj m')).
Proof.
  intros Hs. destruct (written_store s σ m' Hs) as (_ & Hm & Hs1).
  split; [done|]. right. exists m'. split; [|done].
  by destruct Hm as [Hm|[_ Hm]].
Qed.

(** X13: an assignment rewrites the file of the store with the whole
    mapping that the store presents, the new item included, whatever the
    file held; no other file and no directory changes, and afterwards
    cache and file agree. *)
Theorem setitem_writes_whole_cache s σ m key (jv : json) :
  is_store s σ → presents s σ m →
  ∃ s1 σ1,
    __setitem__ key (decode jv) (s, σ) = (Return tt, (s1, σ1))
    ∧ files σ1 = <[file_name s := render store_options (JObj (<[key := jv]> m))]>
                   (files σ)
    ∧ dirs σ1 = dirs σ
    ∧ in_sync s1 σ1.
Proof.
  intros Hs Hm. eexists _, _. split; [by apply setitem_presents|].
  split; [done|]. split; [done|]. by apply written_in_sync.
Qed.

(** X18: the state that [__getstate__] hands to pickle, the path with
    no cache, reads as the store itself does where cache and file
    agree: the same items, length and keys. *)
Theorem getstate_reads_agree s σ item :
  in_sync s σ →
  (__getitem__ item (__getstate__ s, σ)).1 = (__getitem__ item (s, σ)).1
  ∧ (__len__ (__getstate__ s, σ)).1 = (__len__ (s, σ)).1
  ∧ (__iter__ (__getstate__ s, σ)).1 = (__iter__ (s, σ)).1.
Proof.
  intros [Hs Hsync].
  assert (∃ m, presents s σ m ∧ presents (__getstate__ s) σ m) as (m & Hm & Hm').
  { destruct Hsync as [Hd|(m & Hf & Hd)].
    - destruct Hs as (_ & _ & _ & [m0 Hm0] & _). exists m0. split; by right.
    - exists m. split; [by left|by right]. }
  assert (Hs' : is_store (__getstate__ s) σ).
  { destruct Hs as (? & ? & ? & ? & _). unfold is_store, __getstate__.
    cbn [file_name data]. repeat split; try done. by left. }
  rewrite (getitem_presents _ _ m item Hs' Hm'), (getitem_presents _ _ m item Hs Hm).
  rewrite (len_presents _ _ m Hs' Hm'), (len_presents _ _ m Hs Hm).
  split; [done|]. split; [done|].
  unfold __iter__. unfold bind at 1 3.
  rewrite (load_presents _ _ m Hs' Hm'), (load_presents _ _ m Hs Hm). done.
Qed.

(** X14: an assignment to a new key makes the store one longer; an
    assignment to a key it has leaves the length as it was. *)
Theorem len_after_setitem s σ m key (jv : json) :
  is_store s σ → presents s σ m →
  ∃ s1 σ1,
    __setitem__ key (decode jv) (s, σ) = (Return tt, (s1, σ1))
    ∧ (__len__ (s, σ)).1 = Return (Z.of_nat (size m))
    ∧ (__len__ (s1, σ1)).1
      = Return (match m !! key with
                | Some _ => Z.of_nat (size m)
                | None => (Z.of_nat (size m) + 1)%Z
                end).
Proof.
  intros Hs Hm. eexists _, _. split; [by apply setitem_presents|].
  split; [by rewrite (len_presents s σ m)|].
  destruct (written_store s σ (<[key:=jv]> m) Hs) as (_ & _ & Hs1).
  rewrite (len_presents _ _ (<[key:=jv]> m) Hs1) by (by left). cbn [fst]. f_equal.
  destruct (m !! key) as [v|] eqn:Hk.
  - f_equal. rewrite <-(insert_delete_id m key v) at 2 by done.
    rewrite <-insert_delete_eq.
    by rewrite !map_size_insert_None by apply lookup_delete_eq.
  - rewrite map_size_insert_None by done. lia.
Qed.

(** X17: iterating a store yields text keys, each key of its mapping
    once and nothing else, as many as [__len__] counts. *)
Theorem iter_yields_each_key_once s σ m :
  is_store s σ → presents s σ m →
  ∃ ks s1,
    __iter__ (s, σ) = (Return (PStr <$> ks), (s1, σ))
    ∧ NoDup ks
    ∧ (∀ k, k ∈ ks ↔ is_Some (m !! k))
    ∧ __len__ (s, σ) = (Return (Z.of_nat (length ks)), (s1, σ)).
Proof.
  intros Hs Hm.
  exists (map_to_list (decode <$> m)).*1,
         {| file_name := file_name s; data := decode (JObj m) |}.
  split; [|split; [|split]].
  - unfold __iter__. unfold bind at 1. rewrite (load_presents s σ m) by done.
    unfold self, bind, get, ret, lift_result. reflexivity.
  - apply NoDup_fst_map_to_list.
  - intros k. rewrite list_elem_of_fmap. split.
    + intros ([k' v] & -> & Hkv%elem_of_map_to_list).
      rewrite lookup_fmap in Hkv. cbn [fst]. destruct (m !! k'); [by eexists|done].
    + intros [v Hv]. exists (k, decode v). split; [done|].
      apply elem_of_map_to_list. by rewrite lookup_fmap, Hv.
  - rewrite (len_presents s σ m) by done.
    by rewrite length_fmap, length_map_to_list, map_size_fmap.
Qed.

Lemma non_object_not_dict (j : json) :
  (∀ m, j ≠ JObj m) → ∀ d, decode j ≠ PDict d.
Proof. intros Hj d. destruct j; try done. by destruct (Hj m). Qed.

(** X20: over a file that holds a JSON value other than an object,
    reading, assigning and deleting a key raise [TypeError], and the
    file is left as it was. *)
Theorem non_object_file_refused s σ t j key value :
  data s = PNone → file_name s ≠ "" → isdir σ (file_name s) = false →
  files σ !! file_name s = Some t → parse t = Some j → (∀ m, j ≠ JObj m) →
  let s1 := {| file_name := file_name s; data := decode j |} in
  __getitem__ key (s, σ) = (Raise TypeError, (s1, σ))
  ∧ __setitem__ key value (s, σ) = (Raise TypeError, (s1, σ))
  ∧ __delitem__ key (s, σ) = (Raise TypeError, (s1, σ)).
Proof.
  intros Hd Hp Hdir Hf Hj Hno s1.
  pose proof (load_unloaded s σ t j Hd Hp Hdir Hf Hj) as Hload.
  pose proof (non_object_not_dict j Hno) as Hnd.
  split; [|split].
  - unfold __getitem__. unfold bind at 1. rewrite Hload.
    unfold self, bind, get, ret, lift_result. cbn [fst data].
    destruct (decode j) eqn:Hdj; try done. by destruct (Hnd d).
  - unfold __setitem__. unfold bind at 1. rewrite Hload.
    unfold self, bind, get, ret, lift_result. cbn [fst data].
    destruct (decode j) eqn:Hdj; try done. by destruct (Hnd d).
  - unfold __delitem__. unfold bind at 1. rewrite Hload.
    unfold self, bind, get, ret, lift_result. cbn [fst data].
    destruct (decode j) eqn:Hdj; try done. by destruct (Hnd d).
Qed.

Lemma load_fails s σ :
  data s = PNone → isdir σ (file_name s) = false →
  files σ !! file_name s = None → parent_error σ (file_name s) = None →
  _load (s, σ) = (Raise FileNotFoundError, (s, σ)).
Proof.
  intros Hd Hdir Hf Hpar. unfold _load, self. unfold bind at 1 2.
  unfold get, ret. cbn [fst]. rewrite Hd.
  unfold catch, bind, on_snd. cbn [fst snd].
  unfold open_r, bind, get, raise. by rewrite Hdir, Hf, Hpar.
Qed.

(** X21: in a file system of plain spellings, when the path of an
    unloaded store, spelled so, names no file in a directory that is
    there, every method and [frozen_to_json_friendly] with the store as
    its reference raise [FileNotFoundError], and neither store nor file
    system changes. *)
Theorem load_failure_propagates (absolute : bool) s σ key value :
  plain_fs absolute σ → plain absolute (file_name s) = true →
  data s = PNone → isdir σ (file_name s) = false →
  files σ !! file_name s = None → parent_error σ (file_name s) = None →
  __len__ (s, σ) = (Raise FileNotFoundError, (s, σ))
  ∧ __iter__ (s, σ) = (Raise FileNotFoundError, (s, σ))
  ∧ __getitem__ key (s, σ) = (Raise FileNotFoundError, (s, σ))
  ∧ __setitem__ key value (s, σ) = (Raise FileNotFoundError, (s, σ))
  ∧ __delitem__ key (s, σ) = (Raise FileNotFoundError, (s, σ))
  ∧ ∀ fz, frozen_to_json_friendly fz (Some s) σ = (Raise FileNotFoundError, σ).
Proof.
  intros _ _ Hd Hdir Hf Hpar. pose proof (load_fails s σ Hd Hdir Hf Hpar) as Hload.
  assert (Hlen : __len__ (s, σ) = (Raise FileNotFoundError, (s, σ))).
  { unfold __len__. unfold bind at 1. by rewrite Hload. }
  split; [done|]. split; [|split; [|split; [|split]]].
  - unfold __iter__. unfold bind at 1. by rewrite Hload.
  - unfold __getitem__. unfold bind at 1. by rewrite Hload.
  - unfold __setitem__. unfold bind at 1. by rewrite Hload.
  - unfold __delitem__. unfold bind at 1. by rewrite Hload.
  - intros fz. unfold frozen_to_json_friendly, call, bind, truth_value, bind.
    by rewrite Hlen.
Qed.

End lazy_json_mapping.

(** ** The codec on nested objects *)

Section codec_roundtrip.
Import Json Os LazyJson Codec.
Context `{JsonText}.
Implicit Types (s : LazyJson.t) (σ : fs text) (p : string).

Lemma mapM_eff_cons {S A B} (f : A → Eff S B) x xs :
  mapM_eff f (x :: xs) = (y ⇐ f x ;; ys ⇐ mapM_eff f xs ;; ret (y :: ys)).
Proof. reflexivity. Qed.

Lemma mapM_eff_fmap {S A B C} (f : B → Eff S C) (h : A → B) (g : A → C)
    (l : list A) (σ : S) :
  Forall (λ x, f (h x) σ = (Return (g x), σ)) l →
  mapM_eff f (h <$> l) σ = (Return (g <$> l), σ).
Proof.
  induction 1 as [|x l Hx _ IH]; [done|].
  rewrite !fmap_cons, mapM_eff_cons. unfold bind at 1. rewrite Hx.
  unfold bind at 1. by rewrite IH.
Qed.

Lemma map_mapM_eff_fmap {S A B C} (f : B → Eff S C) (h : A → B) (g : A → C)
    (m : gmap string A) (σ : S) :
  map_Forall (λ _ x, f (h x) σ = (Return (g x), σ)) m →
  map_mapM_eff f (h <$> m) σ = (Return (g <$> m), σ).
Proof.
  unfold map_mapM_eff. rewrite map_fold_fmap.
  apply (map_fold_weak_ind
           (λ r m, map_Forall (λ _ x, f (h x) σ = (Return (g x), σ)) m →
                   r σ = (Return (g <$> m), σ))).
  - intros _. by rewrite fmap_empty.
  - intros k x m' r Hk IH Hall.
    apply map_Forall_insert in Hall as [Hx Hall]; [|done].
    unfold compose. cbv beta. unfold bind at 1. rewrite (IH Hall). unfold bind at 1. rewrite Hx.
    unfold ret. by rewrite fmap_insert.
Qed.

Lemma decode_with_arr hook l :
  decode_with hook (JArr l)
  = (l' ⇐ mapM_eff (decode_with hook) l ;; ret (PList l')).
Proof. reflexivity. Qed.

Lemma decode_with_obj hook m :
  decode_with hook (JObj m)
  = (d ⇐ map_mapM_eff (decode_with hook) m ;; hook d).
Proof. reflexivity. Qed.

(** Reading the document of a restorable object back. *)
Lemma decode_with_to_doc σ o :
  restorable σ o →
  decode_with object_hook (to_doc o) σ = (Return (reloaded o), σ).
Proof.
  induction o as [| | | | |l IH|d IH|fn d IH] using pyobj_nested_ind;
    intros Hr; try reflexivity.
  - inversion_clear Hr as [| | | | |? Hl| |].
    cbn [to_doc reloaded]. rewrite decode_with_arr. unfold bind.
    rewrite (mapM_eff_fmap _ to_doc reloaded); [done|].
    apply Forall_forall. intros x Hx.
    rewrite Forall_forall in IH. rewrite Forall_forall in Hl. auto.
  - inversion_clear Hr as [| | | | | |? Htag Hd|].
    cbn [to_doc reloaded]. rewrite decode_with_obj. unfold bind.
    rewrite (map_mapM_eff_fmap _ to_doc reloaded).
    + unfold object_hook. by rewrite lookup_fmap, Htag.
    + intros k x Hk. apply (IH k x Hk). by apply (Hd k).
  - inversion_clear Hr. cbn [to_doc reloaded].
    by apply decode_with_lazy_json_doc.
Qed.

Lemma restorable_insert σ q (t : text) o :
  restorable σ o →
  restorable {| files := <[q := t]> (files σ); dirs := dirs σ |} o.
Proof.
  induction o as [| | | | |l IH|d IH|fn d IH] using pyobj_nested_ind;
    intros Hr; try constructor.
  - inversion_clear Hr as [| | | | |? Hl| |].
    apply Forall_forall. intros x Hx.
    rewrite Forall_forall in IH. rewrite Forall_forall in Hl. auto.
  - by inversion_clear Hr.
  - inversion_clear Hr as [| | | | | |? Htag Hd|].
    intros k x Hk. apply (IH k x Hk). by apply (Hd k).
  - inversion_clear Hr. by apply path_exists_insert.
Qed.

(** What [json.load] builds is restorable when it has no tagged
    object, and is read back as it is. *)

(** X22: for an object built from the JSON types and stores, with no
    dictionary key "__lazy_json__" and every store's path in existence,
    [dumps] returns a text from which [loads] builds the object again,
    each store, at any depth, as a new unloaded store over its path,
    without a change to the file system; so do [dump] into a file and
    [load] from it. *)
Theorem loads_dumps_roundtrip σ o :
  restorable σ o →
  ∃ t, dumps o = Return t
       ∧ loads t σ = (Return (reloaded o), σ)
       ∧ ∀ fp, fp ≠ "" → isdir σ fp = false →
           ∃ σ1, dump o fp σ = (Return tt, σ1)
                 ∧ load fp σ1 = (Return (reloaded o), σ1).
Proof.
  intros Hr. exists (render codec_options (to_doc o)).
  split; [|split].
  - unfold dumps, json_dumps, recursion_limit. by rewrite encode_to_doc.
  - unfold loads. rewrite parse_render. by apply decode_with_to_doc.
  - intros fp Hfp Hdir. eexists. split.
    + unfold dump, recursion_limit. rewrite encode_to_doc. reflexivity.
    + unfold load, bind.
      rewrite (open_r_file _ fp (render codec_options (to_doc o)));
        [|done|done|apply lookup_insert_eq].
      unfold loads. rewrite parse_render.
      apply decode_with_to_doc. by apply restorable_insert.
Qed.

(** X24: decoding has a side effect: in a file system of plain
    spellings, [loads] of the document of a store whose path, spelled
    so, does not exist constructs the store, which creates its file with
    the empty object in it. *)
Theorem loads_creates_missing_store (absolute : bool) σ p opts :
  plain_fs absolute σ → plain absolute p = true →
  wf_fs σ → names_file p → path_exists σ p = false →
  creatable σ (split p).1 →
  ∃ σ',
    loads (render opts (lazy_json_doc p)) σ = (Return (PLazyJson p PNone), σ')
    ∧ files σ' = <[p := render json_defaults (JObj ∅)]> (files σ)
    ∧ σ' ≠ σ.
Proof.
  intros _ _ Hwf Hp He Hc.
  destruct (init_creates σ p Hwf Hp He Hc)
    as (s & σ' & Hinit & -> & Hfiles & _).
  exists σ'. split; [|split; [done|]].
  - rewrite loads_lazy_json_doc_constructs. unfold bind. by rewrite Hinit.
  - intros ->.
    destruct (path_exists_false σ p (names_file_nonempty p Hp) He) as (_ & _ & _ & Hnf).
    assert (files σ !! p = Some (render json_defaults (JObj ∅))) as Hin
      by (by rewrite Hfiles, lookup_insert_eq).
    congruence.
Qed.

Lemma decode_with_untagged σ j :
  untagged j → decode_with object_hook j σ = (Return (decode j), σ).
Proof.
  induction j as [| | | | |l IH|m IH] using json_nested_ind;
    intros Hu; try reflexivity.
  - inversion_clear Hu as [| | | | |? Hl|].
    cbn [decode]. rewrite decode_with_arr. unfold bind.
    rewrite <-(list_fmap_id l) at 1.
    rewrite (mapM_eff_fmap _ id decode); [done|].
    apply Forall_forall. intros x Hx.
    rewrite Forall_forall in IH. rewrite Forall_forall in Hl. by apply IH; [|apply Hl].
  - inversion_clear Hu as [| | | | | |? Htag Hm].
    cbn [decode]. rewrite decode_with_obj. unfold bind.
    rewrite <-(map_fmap_id m) at 1.
    rewrite (map_mapM_eff_fmap _ id decode).
    + unfold object_hook. by rewrite lookup_fmap, Htag.
    + intros k x Hk. apply (IH k x Hk). by apply (Hm k).
Qed.

(** X23: what [json.load] builds from a document in which no object
    has the key "__lazy_json__" is written by [dumps] and read back by
    [loads] as it was, in any file system and without a change to it. *)
Theorem loads_dumps_plain_data (j : json) :
  untagged j →
  ∃ t, dumps (decode j) = Return t
       ∧ ∀ σ, loads t σ = (Return (decode j), σ).
Proof.
  intros Hu. exists (render codec_options j). split.
  - unfold dumps, json_dumps. by rewrite encode_decode.
  - intros σ. unfold loads. rewrite parse_render. by apply decode_with_untagged.
Qed.

(** X25: with a store of the data model as reference,
    [frozen_to_json_friendly] returns a dictionary with the mapping
    under 'data', its keys, each once and in ascending order, under
    'keys', and the store, now loaded, under 'PR' exactly when its
    mapping is not empty; it has no other key, and the file system is
    unchanged. *)
Theorem frozen_record fz pr σ m :
  is_store pr σ → presents pr σ m →
  ∃ d ks,
    frozen_to_json_friendly fz (Some pr) σ = (Return (PDict d), σ)
    ∧ d !! "data" = Some (PDict fz)
    ∧ d !! "keys" = Some (PList (PStr <$> ks))
    ∧ Sorted str_le ks ∧ NoDup ks ∧ (∀ k, k ∈ ks ↔ is_Some (fz !! k))
    ∧ d !! "PR" = (if bool_decide (m = ∅) then None
                   else Some (PLazyJson (file_name pr) (decode (JObj m))))
    ∧ ∀ k, is_Some (d !! k) → k ∈ ["keys"; "data"; "PR"].
Proof.
  intros Hs Hm.
  exists (if bool_decide (m = ∅) then plain_record fz
          else <["PR" := PLazyJson (file_name pr) (decode (JObj m))]> (plain_record fz)),
         (sorted (map_to_list fz).*1).
  destruct (sorted_keys fz) as [Hsorted Hperm].
  split; [|split; [|split; [|split; [|split; [|split; [|split]]]]]].
  - unfold frozen_to_json_friendly, call, bind, truth_value, bind.
    rewrite (len_presents pr σ m) by done. unfold ret. cbn [fst snd as_pyobj file_name data].
    case_bool_decide as Hem.
    + subst m. by rewrite map_size_empty.
    + destruct (size m) eqn:Hsz; [by apply map_size_empty_iff in Hsz|]. done.
  - unfold plain_record. case_bool_decide; by simplify_map_eq.
  - unfold plain_record. case_bool_decide; by simplify_map_eq.
  - done.
  - rewrite Hperm. apply NoDup_fst_map_to_list.
  - intros k. rewrite Hperm, list_elem_of_fmap. split.
    + intros ([k' v] & -> & Hkv%elem_of_map_to_list). by eexists.
    + intros [v Hv]. exists (k, v). split; [done|]. by apply elem_of_map_to_list.
  - unfold plain_record. case_bool_decide; by simplify_map_eq.
  - intros k [v Hv]. unfold plain_record in Hv.
    destruct (decide (k = "PR")) as [->|?]; [set_solver|].
    destruct (decide (k = "data")) as [->|?]; [set_solver|].
    destruct (decide (k = "keys")) as [->|?]; [set_solver|].
    case_bool_decide; by simplify_map_eq.
Qed.

End codec_roundtrip.

(** ** Runs on the example store *)

Section examples.
Import Json Os LazyJson Codec.

(** Construction where nothing existed makes the directories, the
    inner ones after the outer ones, and the file. *)
Lemma init_creates_parents `{JsonText} :
  __init__ "a/b/x.json" fs_empty
  = (Return {| file_name := "a/b/x.json"; data := PNone |},
     {| files := {[ "a/b/x.json" := render json_defaults (JObj ∅) ]};
        dirs := {[ "a"; "a/b" ]} |}).
Proof. vm_compute. reflexivity. Qed.

#[local] Existing Instance tree_text.


Lemma example_store_constructed :
  __init__ "/tmp/x.json" fs_empty = (Return example_store, example_fs).
Proof. reflexivity. Qed.

Lemma example_is_store : @is_store tree_text example_store example_fs.
Proof.
  unfold is_store. split; [done|]. split; [reflexivity|].
  split; [reflexivity|]. split; [|by left]. by exists ∅.
Qed.

Lemma setitem_roundtrips_through_file_witness :
  @is_store tree_text example_store example_fs
  ∧ ∃ s1 σ1 s2 s3,
      __setitem__ "a" (PInt 1) (example_store, example_fs) = (Return tt, (s1, σ1))
      ∧ __init__ (file_name example_store) σ1 = (Return s2, σ1)
      ∧ data s2 = PNone
      ∧ __getitem__ "a" (s2, σ1) = (Return (PInt 1), (s3, σ1)).
Proof.
  split; [exact example_is_store|].
  apply (setitem_roundtrips_through_file example_store example_fs).
  exact example_is_store.
Defined.

Lemma lazy_json_codec_roundtrip_witness :
  __init__ "/tmp/x.json" fs_empty = (Return example_store, example_fs)
  ∧ dumps (PLazyJson "/tmp/x.json" PNone)
    = Return (render codec_options (lazy_json_doc "/tmp/x.json"))
  ∧ ∃ s', loads (render codec_options (lazy_json_doc "/tmp/x.json")) example_fs
          = (Return (as_pyobj s'), example_fs)
          ∧ file_name s' = "/tmp/x.json".
Proof.
  split; [exact example_store_constructed|].
  destruct (lazy_json_codec_roundtrip "/tmp/x.json" fs_empty example_store
              example_fs PNone example_store_constructed)
    as (Hdumps & Hloads & _).
  split; [exact Hdumps | exact Hloads].
Defined.

Lemma example_presents : presents example_store example_fs ∅.
Proof. right. by split. Qed.

Lemma example_in_sync : in_sync example_loaded_store example_synced_fs.
Proof.
  split.
  - unfold is_store. split; [done|]. split; [reflexivity|].
    split; [reflexivity|]. split; [by eexists|]. right. by eexists.
  - right. exists {[ "a" := JInt 1 ]}. by split.
Qed.

Lemma example_loaded_is_store : is_store example_loaded_store example_fs.
Proof.
  unfold is_store. split; [done|]. split; [reflexivity|].
  split; [reflexivity|]. split; [by exists ∅|]. right. by eexists.
Qed.

Lemma example_loaded_presents :
  presents example_loaded_store example_fs {[ "a" := JInt 1 ]}.
Proof. by left. Qed.

Lemma setitem_reload_lookup_witness :
  ∃ s1 σ1,
    __setitem__ "a" (decode (JInt 1)) (example_store, example_fs)
    = (Return tt, (s1, σ1))
    ∧ ∀ item,
        (__getitem__ item
           ({| file_name := file_name example_store; data := PNone |}, σ1)).1
        = (if decide (item = "a") then Return (decode (JInt 1))
           else (__getitem__ item (example_store, example_fs)).1).
Proof.
  exact (setitem_reload_lookup example_store example_fs ∅ "a" (JInt 1)
           example_is_store example_presents).
Defined.

Lemma delitem_reload_lookup_witness :
  ∃ s1 σ1,
    __delitem__ "a" (example_loaded_store, example_fs) = (Return tt, (s1, σ1))
    ∧ ∀ item,
        (__getitem__ item
           ({| file_name := file_name example_loaded_store; data := PNone |}, σ1)).1
        = (if decide (item = "a") then Raise KeyError
           else (__getitem__ item (example_loaded_store, example_fs)).1).
Proof.
  apply (delitem_reload_lookup example_loaded_store example_fs
           {[ "a" := JInt 1 ]} "a" (JInt 1)
           example_loaded_is_store example_loaded_presents).
  reflexivity.
Defined.

Lemma missing_key_raises_witness :
  ∃ s1,
    __getitem__ "a" (example_store, example_fs) = (Raise KeyError, (s1, example_fs))
    ∧ __delitem__ "a" (example_store, example_fs)
      = (Raise KeyError, (s1, example_fs))
    ∧ presents s1 example_fs ∅.
Proof.
  apply (missing_key_raises example_store example_fs ∅ "a"
           example_is_store example_presents).
  reflexivity.
Defined.

Lemma loaded_store_ignores_file_witness :
  ∃ s1,
    __len__ (example_store, example_fs)
    = (Return (Z.of_nat (size (∅ : gmap string json))), (s1, example_fs))
    ∧ ∀ σ' item,
        __len__ (s1, σ')
        = (Return (Z.of_nat (size (∅ : gmap string json))), (s1, σ'))
        ∧ __getitem__ item (s1, σ')
          = (match (∅ : gmap string json) !! item with
             | Some v => Return (decode v)
             | None => Raise KeyError
             end, (s1, σ')).
Proof.
  exact (loaded_store_ignores_file example_store example_fs ∅
           example_is_store example_presents).
Defined.


Lemma fresh_store_is_empty_mapping_witness :
  ∃ s σ',
    __init__ "a/b/x.json" fs_empty = (Return s, σ')
    ∧ file_name s = "a/b/x.json"
    ∧ files σ' = <["a/b/x.json" := render json_defaults (JObj ∅)]> (files fs_empty)
    ∧ isdir σ' (split "a/b/x.json").1 = true
    ∧ (__len__ (s, σ')).1 = Return 0%Z
    ∧ (__iter__ (s, σ')).1 = Return []
    ∧ ∀ item, (__getitem__ item (s, σ')).1 = Raise KeyError.
Proof.
  apply (fresh_store_is_empty_mapping false fs_empty "a/b/x.json").
  - split; [apply map_Forall_empty|apply set_Forall_empty].
  - reflexivity.
  - intros d Hd. by apply elem_of_empty in Hd.
  - unfold names_file. vm_compute. discriminate.
  - reflexivity.
  - apply creatable_child; [reflexivity|by vm_compute|by vm_compute|].
    apply creatable_top; [reflexivity|by vm_compute|by vm_compute|reflexivity].
Defined.

Lemma loads_creates_missing_store_witness :
  ∃ σ',
    loads (render codec_options (lazy_json_doc "a/b/x.json")) fs_empty
    = (Return (PLazyJson "a/b/x.json" PNone), σ')
    ∧ files σ' = <["a/b/x.json" := render json_defaults (JObj ∅)]> (files fs_empty)
    ∧ σ' ≠ fs_empty.
Proof.
  apply (loads_creates_missing_store false fs_empty "a/b/x.json" codec_options).
  - split; [apply map_Forall_empty|apply set_Forall_empty].
  - reflexivity.
  - intros d Hd. by apply elem_of_empty in Hd.
  - unfold names_file. vm_compute. discriminate.
  - reflexivity.
  - apply creatable_child; [reflexivity|by vm_compute|by vm_compute|].
    apply creatable_top; [reflexivity|by vm_compute|by vm_compute|reflexivity].
Defined.

Lemma setitem_writes_whole_cache_witness :
  ∃ s1 σ1,
    __setitem__ "b" (decode (JInt 2)) (example_loaded_store, example_fs)
    = (Return tt, (s1, σ1))
    ∧ files σ1
      = <[file_name example_loaded_store :=
            render store_options (JObj (<["b" := JInt 2]> {[ "a" := JInt 1 ]}))]>
          (files example_fs)
    ∧ dirs σ1 = dirs example_fs
    ∧ in_sync s1 σ1.
Proof.
  exact (setitem_writes_whole_cache example_loaded_store example_fs
           {[ "a" := JInt 1 ]} "b" (JInt 2)
           example_loaded_is_store example_loaded_presents).
Defined.

Lemma getstate_reads_agree_witness :
  data example_loaded_store ≠ PNone
  ∧ data (__getstate__ example_loaded_store) = PNone
  ∧ (__getitem__ "a" (__getstate__ example_loaded_store, example_synced_fs)).1
    = (__getitem__ "a" (example_loaded_store, example_synced_fs)).1
  ∧ (__len__ (__getstate__ example_loaded_store, example_synced_fs)).1
    = (__len__ (example_loaded_store, example_synced_fs)).1
  ∧ (__iter__ (__getstate__ example_loaded_store, example_synced_fs)).1
    = (__iter__ (example_loaded_store, example_synced_fs)).1.
Proof.
  split; [discriminate|]. split; [reflexivity|].
  exact (getstate_reads_agree example_loaded_store example_synced_fs "a"
           example_in_sync).
Defined.

Lemma len_after_setitem_witness :
  ∃ s1 σ1,
    __setitem__ "b" (decode (JInt 2)) (example_loaded_store, example_fs)
    = (Return tt, (s1, σ1))
    ∧ (__len__ (example_loaded_store, example_fs)).1
      = Return (Z.of_nat (size ({[ "a" := JInt 1 ]} : gmap string json)))
    ∧ (__len__ (s1, σ1)).1
      = Return (match ({[ "a" := JInt 1 ]} : gmap string json) !! "b" with
                | Some _ => Z.of_nat (size ({[ "a" := JInt 1 ]} : gmap string json))
                | None => (Z.of_nat (size ({[ "a" := JInt 1 ]} : gmap string json)) + 1)%Z
                end).
Proof.
  exact (len_after_setitem example_loaded_store example_fs
           {[ "a" := JInt 1 ]} "b" (JInt 2)
           example_loaded_is_store example_loaded_presents).
Defined.

Lemma iter_yields_each_key_once_witness :
  ∃ ks s1,
    __iter__ (example_loaded_store, example_fs) = (Return (PStr <$> ks), (s1, example_fs))
    ∧ NoDup ks
    ∧ (∀ k, k ∈ ks ↔ is_Some (({[ "a" := JInt 1 ]} : gmap string json) !! k))
    ∧ __len__ (example_loaded_store, example_fs)
      = (Return (Z.of_nat (length ks)), (s1, example_fs)).
Proof.
  exact (iter_yields_each_key_once example_loaded_store example_fs
           {[ "a" := JInt 1 ]}
           example_loaded_is_store example_loaded_presents).
Defined.

Lemma non_object_file_refused_witness :
  let s := {| file_name := "/tmp/l.json"; data := PNone |} in
  let s1 := {| file_name := "/tmp/l.json"; data := decode (JArr []) |} in
  __getitem__ "a" (s, example_array_fs) = (Raise TypeError, (s1, example_array_fs))
  ∧ __setitem__ "a" (PInt 1) (s, example_array_fs)
    = (Raise TypeError, (s1, example_array_fs))
  ∧ __delitem__ "a" (s, example_array_fs)
    = (Raise TypeError, (s1, example_array_fs)).
Proof.
  apply (non_object_file_refused {| file_name := "/tmp/l.json"; data := PNone |}
           example_array_fs (Some (JArr [])) (JArr []) "a" (PInt 1));
    try reflexivity; try done.
Defined.

Lemma example_fs_plain : plain_fs true example_fs.
Proof.
  split.
  - apply (bool_decide_unpack _). vm_compute. exact I.
  - apply (bool_decide_unpack _). vm_compute. exact I.
Qed.

Lemma load_failure_propagates_witness :
  let s := {| file_name := "/tmp/gone.json"; data := PNone |} in
  __len__ (s, example_fs) = (Raise FileNotFoundError, (s, example_fs))
  ∧ __iter__ (s, example_fs) = (Raise FileNotFoundError, (s, example_fs))
  ∧ __getitem__ "a" (s, example_fs) = (Raise FileNotFoundError, (s, example_fs))
  ∧ __setitem__ "a" (PInt 1) (s, example_fs)
    = (Raise FileNotFoundError, (s, example_fs))
  ∧ __delitem__ "a" (s, example_fs) = (Raise FileNotFoundError, (s, example_fs))
  ∧ ∀ fz, frozen_to_json_friendly fz (Some s) example_fs
          = (Raise FileNotFoundError, example_fs).
Proof.
  apply (load_failure_propagates true
           {| file_name := "/tmp/gone.json"; data := PNone |}
           example_fs "a" (PInt 1)).
  - exact example_fs_plain.
  - reflexivity.
  - reflexivity.
  - reflexivity.
  - reflexivity.
  - reflexivity.
Defined.

Lemma init_keeps_what_exists_witness :
  (∀ q t, files example_fs !! q = Some t →
          files (__init__ "/tmp/d/y.json" example_fs).2 !! q = Some t)
  ∧ dirs example_fs ⊆ dirs (__init__ "/tmp/d/y.json" example_fs).2
  ∧ ∀ s, (__init__ "/tmp/d/y.json" example_fs).1 = Return s →
         __init__ "/tmp/d/y.json" (__init__ "/tmp/d/y.json" example_fs).2
         = (Return s, (__init__ "/tmp/d/y.json" example_fs).2).
Proof.
  apply (init_keeps_what_exists true example_fs "/tmp/d/y.json").
  - exact example_fs_plain.
  - reflexivity.
Defined.

Lemma loads_dumps_roundtrip_witness :
  let o := PList [PInt 1; PLazyJson "/tmp/x.json" (PDict ∅)] in
  ∃ t, dumps o = Return t
       ∧ loads t example_fs = (Return (reloaded o), example_fs)
       ∧ ∀ fp, fp ≠ "" → isdir example_fs fp = false →
           ∃ σ1, dump o fp example_fs = (Return tt, σ1)
                 ∧ load fp σ1 = (Return (reloaded o), σ1).
Proof.
  apply (loads_dumps_roundtrip example_fs
           (PList [PInt 1; PLazyJson "/tmp/x.json" (PDict ∅)])).
  apply restorable_list. apply Forall_cons_2; [apply restorable_int|].
  apply Forall_cons_2; [|apply Forall_nil_2].
  apply restorable_store. reflexivity.
Defined.

Lemma loads_dumps_plain_data_witness :
  ∃ t, dumps (decode (JObj {[ "a" := JArr [JInt 1; JNull] ]})) = Return t
       ∧ ∀ σ, loads t σ
              = (Return (decode (JObj {[ "a" := JArr [JInt 1; JNull] ]})), σ).
Proof.
  apply (loads_dumps_plain_data (JObj {[ "a" := JArr [JInt 1; JNull] ]})).
  apply untagged_obj; [reflexivity|].
  apply map_Forall_singleton. apply untagged_arr.
  apply Forall_cons_2; [apply untagged_int|].
  apply Forall_cons_2; [apply untagged_null|apply Forall_nil_2].
Defined.

Lemma frozen_record_witness :
  ∃ d ks,
    frozen_to_json_friendly {[ "b" := PInt 2 ]} (Some example_loaded_store) example_fs
    = (Return (PDict d), example_fs)
    ∧ d !! "data" = Some (PDict {[ "b" := PInt 2 ]})
    ∧ d !! "keys" = Some (PList (PStr <$> ks))
    ∧ Sorted str_le ks ∧ NoDup ks
    ∧ (∀ k, k ∈ ks ↔ is_Some (({[ "b" := PInt 2 ]} : gmap string pyobj) !! k))
    ∧ d !! "PR"
      = (if bool_decide (({[ "a" := JInt 1 ]} : gmap string json) = ∅) then None
         else Some (PLazyJson (file_name example_loaded_store)
                      (decode (JObj {[ "a" := JInt 1 ]}))))
    ∧ ∀ k, is_Some (d !! k) → k ∈ ["keys"; "data"; "PR"].
Proof.
  exact (frozen_record {[ "b" := PInt 2 ]} example_loaded_store example_fs
           {[ "a" := JInt 1 ]}
           example_loaded_is_store example_loaded_presents).
Defined.

End examples.
